(** * Finalize-execution engine of the explorer: a shallow embedding

    The development follows [interpreter/interpreter.py] (the transaction and
    block finalizers, the call-graph tracer, the operation applier) and the
    response loop of [api/execute_routes.py].  Python exceptions are modelled
    by an explicit result type, the process-wide mapping cache and the
    transaction-local caches by a small store of dictionaries addressed by
    location, and the database by the log of the mutations sent to it. *)

From stdpp Require Import gmap strings list pretty.

#[local] Set Warnings "-register-all".

Local Open Scope Z_scope.

(** ** Exceptions and results *)

(** [interpreter.finalizer.ExecuteError]: a message, the failing instruction,
    the exception it wraps (as it prints) and the transition the instruction
    belongs to. *)
Record ExecuteError := mkExecuteError {
  e_message : string;
  e_instruction : string;
  e_original_exception : string;
  e_transition_id : Z;
}.

Inductive Exn :=
| TypeError (msg : string)
| RuntimeError (msg : string)
| NotImplementedError (msg : string)
| IndexError
| KeyError (key : string)
| ValueError
| AttributeError
| ExecuteError_ (e : ExecuteError).

Inductive Result (A : Type) :=
| Raise (e : Exn)
| Return (a : A).
Arguments Raise {A} e.
Arguments Return {A} a.

Definition rbind {A B} (r : Result A) (k : A -> Result B) : Result B :=
  match r with
  | Raise e => Raise e
  | Return a => k a
  end.

Notation "'let!' x ':=' c 'in' k" := (rbind c (fun x => k))
  (at level 10, x pattern, c at level 100, k at level 200).

(** Python's [l[i]]: a negative index counts from the end, and an index
    outside [-len l, len l) raises [IndexError]. *)
Definition py_index {A} (l : list A) (i : Z) : Result A :=
  let n := Z.of_nat (length l) in
  let j := if i <? 0 then n + i else i in
  if (j <? 0) || (n <=? j) then Raise IndexError
  else match l !! Z.to_nat j with
       | Some x => Return x
       | None => Raise IndexError
       end.

(** Python's [d[k]] on a [dict] with string keys. *)
Definition py_item {V} (d : gmap string V) (k : string) : Result V :=
  match d !! k with
  | Some v => Return v
  | None => Raise (KeyError k)
  end.

(** ** Data model *)

Abbreviation Field := Z (only parsing).
Abbreviation TransitionID := Z (only parsing).
Abbreviation Identifier := string (only parsing).

(** [FinalizeOperation.Type]. *)
Inductive FinalizeOperationType :=
| TInitializeMapping
| TInsertKeyValue
| TUpdateKeyValue
| TRemoveKeyValue
| TRemoveMapping.

Global Instance FinalizeOperationType_eq_dec : EqDecision FinalizeOperationType.
Proof. solve_decision. Defined.

(** The expected operations carried by a confirmed transaction; only the
    attributes the finalizer reads are kept. *)
Inductive FinalizeOperation :=
| InitializeMapping (mapping_id : Field)
| InsertKeyValue (mapping_id key_id value_id : Field)
| UpdateKeyValue (mapping_id key_id value_id : Field)
| RemoveKeyValue (mapping_id key_id : Field)
| RemoveMapping (mapping_id : Field).

Definition op_type (e : FinalizeOperation) : FinalizeOperationType :=
  match e with
  | InitializeMapping _ => TInitializeMapping
  | InsertKeyValue _ _ _ => TInsertKeyValue
  | UpdateKeyValue _ _ _ => TUpdateKeyValue
  | RemoveKeyValue _ _ => TRemoveKeyValue
  | RemoveMapping _ => TRemoveMapping
  end.

Definition op_mapping_id (e : FinalizeOperation) : Field :=
  match e with
  | InitializeMapping m | InsertKeyValue m _ _ | UpdateKeyValue m _ _
  | RemoveKeyValue m _ | RemoveMapping m => m
  end.

(** The values stored in the dictionaries the finalizer produces (the actual
    operations are [dict[str, Any]]). *)
Inductive PyVal :=
| VType (t : FinalizeOperationType)
| VField (f : Field)
| VStr (s : string)
| VInt (n : Z)
| VBool (b : bool)
| VBytes (b : string).

Global Instance PyVal_eq_dec : EqDecision PyVal.
Proof. solve_decision. Defined.

Abbreviation Operation := (gmap string PyVal).

(** *** Programs *)

Inductive Register :=
| LocatorRegister (locator : Z)
| AccessRegister (locator : Z).

Definition register_locator (r : Register) : Z :=
  match r with
  | LocatorRegister l | AccessRegister l => l
  end.

Inductive Operand :=
| RegisterOperand (register : Register)
| OtherOperand.

Inductive CallOperator :=
| LocatorCallOperator (id : string) (resource : Identifier)
| IdentifierCallOperator (identifier : Identifier).

(** An instruction, as far as the tracer tells instructions apart. *)
Inductive Instruction :=
| CallInstruction (operator : CallOperator) (destinations : list Register)
| AsyncInstruction (operands : list Operand)
| OtherInstruction.

Inductive Command :=
| AwaitCommand (register : Register)
| OtherCommand.

Record Function := mkFunction {
  fn_name : Identifier;
  fn_instructions : list Instruction;
  fn_finalize : option (list Command);
}.

Record Mapping := mkMapping {
  key_type : string;
  value_type : string;
}.

(** [mappings] keeps the declaration order of the program (a Python [dict]
    iterates in insertion order); [functions] is only looked up by name. *)
Record Program := mkProgram {
  program_id : string;
  mappings : list (Identifier * Mapping);
  functions : gmap Identifier Function;
}.

(** [Program.CallGraphNode] / [LocalCallGraphNode]: the [transition_id] key is
    absent until the tracer writes it. *)
Inductive CallGraphNode :=
| Node (index : Z) (name : string) (transition_id : option TransitionID)
       (calls : list CallGraphNode).

Definition node_index (n : CallGraphNode) : Z :=
  match n with Node i _ _ _ => i end.
Definition node_name (n : CallGraphNode) : string :=
  match n with Node _ nm _ _ => nm end.
Definition node_transition_id (n : CallGraphNode) : option TransitionID :=
  match n with Node _ _ t _ => t end.
Definition node_calls (n : CallGraphNode) : list CallGraphNode :=
  match n with Node _ _ _ cs => cs end.

(** *** Transactions *)

Inductive Plaintext := mkPlaintext (repr : string).

Inductive Future :=
| mkFuture (program_id : string) (function_name : Identifier)
           (arguments : list Argument)
with Argument :=
| PlaintextArgument (plaintext : Plaintext)
| FutureArgument (future : Future).

Definition future_program_id (f : Future) : string :=
  match f with mkFuture p _ _ => p end.
Definition future_function_name (f : Future) : Identifier :=
  match f with mkFuture _ fn _ => fn end.
Definition future_arguments (f : Future) : list Argument :=
  match f with mkFuture _ _ a => a end.

Inductive Value :=
| PlaintextValue (plaintext : Plaintext)
| RecordValue
| FutureValue (future : Future).

Inductive TransitionOutput :=
| FutureTransitionOutput (future : option Future)
| OtherTransitionOutput.

Record Transition := mkTransition {
  tr_id : TransitionID;
  tr_program_id : string;
  tr_function_name : Identifier;
  tr_outputs : list TransitionOutput;
}.

Record Fee := mkFee { fee_transition : Transition }.

Record Execution := mkExecution { transitions : list Transition }.

Record Deployment := mkDeployment { deployment_program : Program }.

Inductive Transaction :=
| DeployTransaction (deployment : Deployment) (fee : Fee)
| ExecuteTransaction (execution : Execution) (fee : option Fee)
| FeeTransaction (fee : Fee).

Inductive Rejected :=
| RejectedDeployment
| RejectedExecution (execution : Execution).

Inductive ConfirmedTransaction :=
| AcceptedDeploy (transaction : Transaction) (finalize : list FinalizeOperation)
| AcceptedExecute (transaction : Transaction) (finalize : list FinalizeOperation)
| RejectedDeploy (transaction : Transaction) (rejected : Rejected)
                 (finalize : list FinalizeOperation)
| RejectedExecute (transaction : Transaction) (rejected : Rejected)
                  (finalize : list FinalizeOperation).

Definition ct_transaction (ct : ConfirmedTransaction) : Transaction :=
  match ct with
  | AcceptedDeploy t _ | AcceptedExecute t _
  | RejectedDeploy t _ _ | RejectedExecute t _ _ => t
  end.

Definition ct_finalize (ct : ConfirmedTransaction) : list FinalizeOperation :=
  match ct with
  | AcceptedDeploy _ f | AcceptedExecute _ f
  | RejectedDeploy _ _ f | RejectedExecute _ _ f => f
  end.

Record Block := mkBlock {
  block_height : Z;
  block_transactions : list ConfirmedTransaction;
}.

(** [interpreter.utils.FinalizeState]: the per-block context. *)
Record FinalizeState := mkFinalizeState { fs_block : Block }.

(** ** The store: caches and database *)

Record CacheEntry := mkCacheEntry {
  entry_key : PyVal;
  entry_value : PyVal;
}.

Abbreviation MappingCacheDict := (gmap Field CacheEntry).
Abbreviation MappingCache := (gmap Field (gmap Field CacheEntry)).

(** The mutations the operation applier sends to the database, with the
    arguments as they are passed. *)
Inductive DbCall :=
| initialize_mapping (mapping_id program_id mapping : string)
| update_mapping_key_value (program_name mapping_name : PyVal)
    (mapping_id key_id value_id : string) (key value : string)
    (height from_transaction : PyVal)
| remove_mapping_key_value (program_name mapping_name : PyVal)
    (mapping_id key_id : string) (key : string)
    (height from_transaction : PyVal).

(** The responses of the preview route. *)
Inductive JSONResponse :=
| JSONError (error : string) (status_code : Z)
| JSONMappingUpdates (mapping_updates : list (gmap string PyVal)).

(** Dictionaries are objects: two names may denote the same cache.  [dicts]
    maps a location to the contents of the mapping cache living there;
    [db] is the list of mutations performed so far, oldest first. *)
Record Store := mkStore {
  dicts : gmap nat MappingCache;
  db : list DbCall;
}.

(** The module-level [global_mapping_cache] of [util.global_cache]. *)
Definition global_mapping_cache : nat := 0%nat.

Definition M (A : Type) : Type := Store -> Result A * Store.

Definition mret {A} (a : A) : M A := fun s => (Return a, s).
Definition mraise {A} (e : Exn) : M A := fun s => (Raise e, s).
Definition mbind {A B} (m : M A) (k : A -> M B) : M B :=
  fun s => match m s with
           | (Raise e, s') => (Raise e, s')
           | (Return a, s') => k a s'
           end.
Definition lift {A} (r : Result A) : M A := fun s => (r, s).

Notation "'do!' x ':=' c 'in' k" := (mbind c (fun x => k))
  (at level 10, x pattern, c at level 100, k at level 200).

(** [{}]: a new, empty dictionary. *)
Definition new_dict : M nat :=
  fun s => let l := fresh (dom (dicts s)) in
           (Return l, mkStore (<[l := ∅]> (dicts s)) (db s)).

(** [d.clear()]. *)
Definition dict_clear (l : nat) : M unit :=
  fun s => (Return tt, mkStore (<[l := ∅]> (dicts s)) (db s)).

Definition db_call (c : DbCall) : M unit :=
  fun s => (Return tt, mkStore (dicts s) (db s ++ [c])).

(** [try: m except ExecuteError as e: h e]; every other exception, and the
    state reached when the exception was raised, pass through. *)
Definition try_except_ExecuteError {A} (m : M A) (h : ExecuteError -> M A) : M A :=
  fun s => match m s with
           | (Raise (ExecuteError_ e), s') => h e s'
           | r => r
           end.

(** ** External collaborators

    Code of the repository that the finalizer calls and that is specified
    only at its interface. *)
Record External := mkExternal {
  (** [util.global_cache.get_program(db, id)]: [None] when the database has
      no such program. *)
  get_program : string -> option Program;
  (** [Program.call_graph(function_name, db)]. *)
  call_graph : Program -> Identifier -> Result (list CallGraphNode);
  (** [Field.loads(cached_get_mapping_id(program_id, mapping))]. *)
  cached_get_mapping_id : string -> string -> Field;
  (** [interpreter.finalizer.execute_finalizer]: it reads the database, may
      write to the dictionaries it is given (by location, so that the two may
      be one and the same) and returns operations or raises. *)
  ext_execute_finalizer :
    list DbCall -> FinalizeState -> list TransitionID -> gset TransitionID ->
    Program -> Identifier -> list Value -> nat -> nat -> bool ->
    gmap nat MappingCache -> Result (list Operation) * gmap nat MappingCache;
  (** [db.get_latest_block()]. *)
  get_latest_block : list DbCall -> Block;
  (** [execute_finalizer] the way [preview_finalize_execution] calls it: one
      transition id, two new empty dictionaries, no state change,
      [execute_await=True]. *)
  ext_preview_finalizer :
    list DbCall -> FinalizeState -> TransitionID -> Program -> Identifier ->
    list Value -> Result (list Operation);
  (** [str(x)] and [x.dump()] on the values of an operation. *)
  py_str : PyVal -> string;
  py_dump : PyVal -> Result string;
}.

(** [str.split(sep)] for a one-character separator. *)
Fixpoint split (sep : Ascii.ascii) (s : string) : list string :=
  match s with
  | EmptyString => [EmptyString]
  | String a s' =>
      if Ascii.eqb a sep then EmptyString :: split sep s'
      else match split sep s' with
           | h :: t => String a h :: t
           | [] => [String a EmptyString]
           end
  end.

Definition slash : Ascii.ascii := Ascii.ascii_of_nat 47.

Definition double_quote : string := String (Ascii.ascii_of_nat 34) EmptyString.

(** Every [Argument] is a [PlaintextArgument] or a [FutureArgument], so the
    [else: raise NotImplementedError] of the source has no input. *)
Definition load_input_from_arguments (arguments : list Argument) : list Value :=
  map (fun argument =>
         match argument with
         | PlaintextArgument plaintext => PlaintextValue plaintext
         | FutureArgument future => FutureValue future
         end) arguments.

(** What [_trace_execution] does on a node once the program and the function
    to trace are known. *)
Abbreviation Tracer :=
  (Program -> Identifier -> list TransitionID -> Result (list TransitionID))
  (only parsing).

(** A child of the node being traced, together with the recursive call of the
    tracer on it.  The register maps of the tracer hold such pairs; the loops
    that fill the maps never look at the second component, and are written
    for any type in its place. *)
Abbreviation Callee := (CallGraphNode * Tracer)%type (only parsing).

Section Interpreter.
Context (ext : External).

Definition execute_finalizer (finalize_state : FinalizeState)
    (transition_ids : list TransitionID) (rejected : gset TransitionID)
    (program : Program) (function_name : Identifier) (inputs : list Value)
    (mapping_cache local_mapping_cache : nat) (allow_state_change : bool)
  : M (list Operation) :=
  fun s =>
    let '(r, d) := ext_execute_finalizer ext (db s) finalize_state transition_ids
                     rejected program function_name inputs mapping_cache
                     local_mapping_cache allow_state_change (dicts s) in
    (r, mkStore d (db s)).

Definition _execute_public_fee (finalize_state : FinalizeState)
    (fee_transition : Transition) (mapping_cache local_mapping_cache : nat)
    (allow_state_change : bool) : M (list Operation) :=
  if bool_decide (tr_program_id fee_transition ≠ "credits.aleo")
     || bool_decide (tr_function_name fee_transition ≠ "fee_public")
  then mraise (TypeError "not a fee transition")
  else
    do! output := lift (py_index (tr_outputs fee_transition) 0) in
    match output with
    | FutureTransitionOutput future_option =>
        match future_option with
        | None => mraise (RuntimeError "invalid fee transition output")
        | Some future =>
            match get_program ext (future_program_id future) with
            | None => mraise (RuntimeError "program not found")
            | Some program =>
                let inputs := load_input_from_arguments (future_arguments future) in
                execute_finalizer finalize_state [tr_id fee_transition] ∅ program
                  (future_function_name future) inputs mapping_cache
                  local_mapping_cache allow_state_change
            end
        end
    | OtherTransitionOutput => mraise (TypeError "invalid fee transition output")
    end.

(** The dictionary [finalize_deploy] appends for one declared mapping. *)
Definition initialize_mapping_operation (program : Program) (mapping : Identifier)
  : Operation :=
  let mapping_id := cached_get_mapping_id ext (program_id program) mapping in
  {[ "type" := VType TInitializeMapping;
     "mapping_id" := VField mapping_id;
     "program_id" := VStr (program_id program);
     "mapping" := VStr mapping ]}.

Definition finalize_deploy (finalize_state : FinalizeState)
    (confirmed_transaction : ConfirmedTransaction) (mapping_cache : nat)
  : M (list FinalizeOperation * list Operation * option string) :=
  let transaction := ct_transaction confirmed_transaction in
  do! transition :=
    match transaction with
    | DeployTransaction _ fee | FeeTransaction fee => mret (fee_transition fee)
    | ExecuteTransaction _ _ => mraise (NotImplementedError "")
    end in
  do! operations :=
    if bool_decide (tr_function_name transition = "fee_public")
    then do! fresh_cache := new_dict in
         _execute_public_fee finalize_state transition mapping_cache fresh_cache true
    else mret [] in
  match confirmed_transaction with
  | AcceptedDeploy _ _ =>
      do! deployment :=
        match transaction with
        | DeployTransaction deployment _ => mret deployment
        | _ => mraise AttributeError
        end in
      let program := deployment_program deployment in
      let expected_operations := ct_finalize confirmed_transaction in
      let operations :=
        operations ++ map (fun mapping => initialize_mapping_operation program mapping)
                          (map fst (mappings program)) in
      mret (expected_operations, operations, None)
  | _ =>
      let expected_operations := ct_finalize confirmed_transaction in
      mret (expected_operations, operations, Some "(detailed reason not available)")
  end.

(** *** The call-graph tracer *)

Definition set_transition_id (c : CallGraphNode) (t : TransitionID) : CallGraphNode :=
  match c with Node i nm _ cs => Node i nm (Some t) cs end.

(** [for c in node["calls"]: c["transition_id"] = transition_ids[c["index"]]]. *)
Fixpoint add_transition_ids {T} (transition_ids : list TransitionID)
    (calls : list (CallGraphNode * T)) : Result (list (CallGraphNode * T)) :=
  match calls with
  | [] => Return []
  | (c, tracer) :: rest =>
      let! t := py_index transition_ids (node_index c) in
      let! rest' := add_transition_ids transition_ids rest in
      Return ((set_transition_id c t, tracer) :: rest')
  end.

(** The inner loop over the operands of an [async] instruction. *)
Fixpoint async_operands {T} (future_register_map : gmap Z (CallGraphNode * T))
    (param_index : Z) (operands : list Operand)
    (finalize_register_map : gmap Z (CallGraphNode * T))
  : gmap Z (CallGraphNode * T) :=
  match operands with
  | [] => finalize_register_map
  | operand :: rest =>
      let finalize_register_map' :=
        match operand with
        | RegisterOperand (LocatorRegister locator) =>
            match future_register_map !! locator with
            | Some callee => <[param_index := callee]> finalize_register_map
            | None => finalize_register_map
            end
        | _ => finalize_register_map
        end in
      async_operands future_register_map (param_index + 1) rest finalize_register_map'
  end.

(** The loop over the instructions of the traced function; its state is
    [call_index], [future_register_map] and [finalize_register_map]. *)
Fixpoint trace_instructions {T} (calls : list (CallGraphNode * T))
    (insts : list Instruction) (call_index : Z)
    (future_register_map finalize_register_map : gmap Z (CallGraphNode * T))
  : Result (gmap Z (CallGraphNode * T)) :=
  match insts with
  | [] => Return finalize_register_map
  | inst :: rest =>
      match inst with
      | CallInstruction (LocatorCallOperator id resource) destinations =>
          match get_program ext id with
          | None => Raise (RuntimeError "program not found")
          | Some called_program =>
              let! called_function := py_item (functions called_program) resource in
              match fn_finalize called_function with
              | None =>
                  trace_instructions calls rest (call_index + 1)
                    future_register_map finalize_register_map
              | Some _ =>
                  let! future_destination := py_index destinations (-1) in
                  let! callee := py_index calls call_index in
                  let future_register_map' :=
                    <[register_locator future_destination := callee]> future_register_map in
                  if bool_decide (program_id called_program +:+ "/" +:+ fn_name called_function
                                  ≠ node_name callee.1)
                  then Raise (RuntimeError "call analysis failed")
                  else trace_instructions calls rest (call_index + 1)
                         future_register_map' finalize_register_map
              end
          end
      | AsyncInstruction operands =>
          trace_instructions calls rest call_index future_register_map
            (async_operands future_register_map 0 operands finalize_register_map)
      | _ =>
          trace_instructions calls rest call_index future_register_map
            finalize_register_map
      end
  end.

(** [p, f = name.split("/")]. *)
Definition split_name (name : string) : Result (string * string) :=
  match split slash name with
  | [p; f] => Return (p, f)
  | _ => Raise ValueError
  end.

(** The loop over the commands of the finalize body. *)
Fixpoint trace_commands (finalize_register_map : gmap Z Callee)
    (commands : list Command) (async_order : list TransitionID)
  : Result (list TransitionID) :=
  match commands with
  | [] => Return async_order
  | AwaitCommand register :: rest =>
      let locator := register_locator register in
      match finalize_register_map !! locator with
      | None => Raise (RuntimeError "invalid await command")
      | Some (called_node, tracer) =>
          let! t := match node_transition_id called_node with
                    | Some t => Return t
                    | None => Raise (KeyError "transition_id")
                    end in
          let async_order := async_order ++ [t] in
          let! (p, f) := split_name (node_name called_node) in
          match get_program ext p with
          | None => Raise (RuntimeError "program not found")
          | Some called_program =>
              if bool_decide (functions called_program !! f = None)
              then Raise (RuntimeError "function not found")
              else
                let! async_order := tracer called_program f async_order in
                trace_commands finalize_register_map rest async_order
          end
      end
  | OtherCommand :: rest => trace_commands finalize_register_map rest async_order
  end.

Fixpoint _trace_execution (transition_ids : list TransitionID) (program : Program)
    (function_name : Identifier) (node : CallGraphNode)
    (async_order : list TransitionID) {struct node} : Result (list TransitionID) :=
  match node with
  | Node _ _ _ calls =>
      let callees :=
        map (fun c => (c, fun p f o => _trace_execution transition_ids p f c o)) calls in
      let! callees := add_transition_ids transition_ids callees in
      let! function := py_item (functions program) function_name in
      match fn_finalize function with
      | None => Return async_order
      | Some commands =>
          let! finalize_register_map :=
            trace_instructions callees (fn_instructions function) 0 ∅ ∅ in
          trace_commands finalize_register_map commands async_order
      end
  end.

Definition build_async_order (transition_ids : list TransitionID) (program : Program)
    (function_name : Identifier) : Result (list TransitionID) :=
  let! call_graph := call_graph ext program function_name in
  let root_call_graph :=
    Node (Z.of_nat (length transition_ids) - 1) "" None call_graph in
  let! last := py_index transition_ids (-1) in
  let async_order := [last] in
  _trace_execution transition_ids program function_name root_call_graph async_order.

(** *** The transaction finalizer for executions *)

(** The position of the first transition whose id is [t].  The source finds
    the first [ts] with [ts.id == t] and takes [transitions.index(ts)], the
    position of that same transition. *)
Fixpoint transition_index (transitions : list Transition) (t : TransitionID)
  : option nat :=
  match transitions with
  | [] => None
  | ts :: rest =>
      if bool_decide (tr_id ts = t) then Some 0%nat
      else S <$> transition_index rest t
  end.

Definition execute_reject_reason (e : ExecuteError) (index : nat) : string :=
  "execute error: " +:+ e_message e +:+ ", at transition #" +:+ pretty index
  +:+ ", instruction " +:+ double_quote +:+ e_instruction e +:+ double_quote.

Definition fee_reject_reason (e : ExecuteError) : string :=
  "execute error: " +:+ e_message e +:+ ", at fee transition, instruction "
  +:+ double_quote +:+ e_instruction e +:+ double_quote.

Definition finalize_execute (finalize_state : FinalizeState)
    (confirmed_transaction : ConfirmedTransaction) (mapping_cache : nat)
  : M (list FinalizeOperation * list Operation * option string) :=
  let expected_operations := ct_finalize confirmed_transaction in
  do! (execution, allow_state_change, local_mapping_cache, fee) :=
    match confirmed_transaction with
    | AcceptedExecute transaction _ =>
        match transaction with
        | ExecuteTransaction execution fee =>
            mret (execution, true, mapping_cache, fee)
        | _ => mraise (TypeError "invalid execute transaction")
        end
    | RejectedExecute transaction rejected _ =>
        match rejected with
        | RejectedExecution execution =>
            do! local_mapping_cache := new_dict in
            match transaction with
            | FeeTransaction fee =>
                mret (execution, false, local_mapping_cache, Some fee)
            | _ => mraise (TypeError "invalid rejected execute transaction")
            end
        | RejectedDeployment => mraise (TypeError "invalid rejected execute transaction")
        end
    | _ => mraise (NotImplementedError "")
    end in
  do! transition := lift (py_index (transitions execution) (-1)) in
  do! (operations, reject_reason) :=
    if bool_decide (length (tr_outputs transition) ≠ 0%nat) then
      do! maybe_future_output := lift (py_index (tr_outputs transition) (-1)) in
      match maybe_future_output with
      | FutureTransitionOutput future_option =>
          match future_option with
          | None => mraise (RuntimeError "invalid future is None")
          | Some future =>
              match get_program ext (future_program_id future) with
              | None => mraise (RuntimeError "program not found")
              | Some program =>
                  let transition_ids := map tr_id (transitions execution) in
                  do! async_order :=
                    lift (build_async_order transition_ids program
                            (future_function_name future)) in
                  let inputs := load_input_from_arguments (future_arguments future) in
                  try_except_ExecuteError
                    (do! ops := execute_finalizer finalize_state async_order ∅ program
                                  (future_function_name future) inputs mapping_cache
                                  local_mapping_cache allow_state_change in
                     mret ([] ++ ops, None))
                    (fun e =>
                       match transition_index (transitions execution) (e_transition_id e) with
                       | None =>
                           mraise (RuntimeError "rejected transition not found in transaction")
                       | Some index => mret ([], Some (execute_reject_reason e index))
                       end)
              end
          end
      | OtherTransitionOutput => mret ([], None)
      end
    else mret ([], None) in
  do! (operations, reject_reason) :=
    match confirmed_transaction, reject_reason with
    | RejectedExecute _ _ _, None =>
        do! fee := match fee with
                   | Some fee => mret fee
                   | None => mraise AttributeError
                   end in
        let transition := fee_transition fee in
        if bool_decide (tr_function_name transition = "fee_public") then
          try_except_ExecuteError
            (do! _ := _execute_public_fee finalize_state transition mapping_cache
                        local_mapping_cache allow_state_change in
             mret ([], Some "unknown reason"))
            (fun e => mret ([], Some (fee_reject_reason e)))
        else mret ([], Some "unknown reason")
    | _, _ => mret (operations, reject_reason)
    end in
  do! operations :=
    match fee with
    | Some fee =>
        let transition := fee_transition fee in
        if bool_decide (tr_function_name transition = "fee_public") then
          do! ops := _execute_public_fee finalize_state transition mapping_cache
                       local_mapping_cache true in
          mret (operations ++ ops)
        else mret operations
    | None => mret operations
    end in
  mret (expected_operations, operations, reject_reason).

(** *** The operation applier *)

Definition execute_operation (operation : Operation) : M unit :=
  do! type := lift (py_item operation "type") in
  match type with
  | VType TInitializeMapping =>
      do! mapping_id := lift (py_item operation "mapping_id") in
      do! program_id := lift (py_item operation "program_id") in
      do! mapping := lift (py_item operation "mapping") in
      db_call (initialize_mapping (py_str ext mapping_id) (py_str ext program_id)
                 (py_str ext mapping))
  | VType TUpdateKeyValue =>
      do! mapping_id := lift (py_item operation "mapping_id") in
      do! key_id := lift (py_item operation "key_id") in
      do! value_id := lift (py_item operation "value_id") in
      do! key := lift (py_item operation "key") in
      do! value := lift (py_item operation "value") in
      do! program_name := lift (py_item operation "program_name") in
      do! mapping_name := lift (py_item operation "mapping_name") in
      do! from_transaction := lift (py_item operation "from_transaction") in
      do! key_bytes := lift (py_dump ext key) in
      do! value_bytes := lift (py_dump ext value) in
      do! height := lift (py_item operation "height") in
      db_call (update_mapping_key_value program_name mapping_name
                 (py_str ext mapping_id) (py_str ext key_id) (py_str ext value_id)
                 key_bytes value_bytes height from_transaction)
  | VType TRemoveKeyValue =>
      do! mapping_id := lift (py_item operation "mapping_id") in
      do! key_id := lift (py_item operation "key_id") in
      do! key := lift (py_item operation "key") in
      do! program_name := lift (py_item operation "program_name") in
      do! mapping_name := lift (py_item operation "mapping_name") in
      do! from_transaction := lift (py_item operation "from_transaction") in
      do! height := lift (py_item operation "height") in
      do! key_bytes := lift (py_dump ext key) in
      db_call (remove_mapping_key_value program_name mapping_name
                 (py_str ext mapping_id) (py_str ext key_id) key_bytes
                 height from_transaction)
  | _ => mraise (NotImplementedError "")
  end.

Fixpoint execute_operations (operations : list Operation) : M unit :=
  match operations with
  | [] => mret tt
  | operation :: rest =>
      do! _ := execute_operation operation in
      execute_operations rest
  end.

(** *** The block finalizer *)

(** The body of the [try] in the validation loop, for one pair. *)
Definition check_operation (e : FinalizeOperation) (o : Operation) : Result unit :=
  let! type := py_item o "type" in
  if bool_decide (VType (op_type e) ≠ type)
  then Raise (TypeError "invalid finalize operation type")
  else
    let! mapping_id := py_item o "mapping_id" in
    if bool_decide (VField (op_mapping_id e) ≠ mapping_id)
    then Raise (TypeError "invalid finalize mapping id")
    else
      match e with
      | InitializeMapping _ => Return tt
      | UpdateKeyValue _ key_id value_id =>
          let! o_key_id := py_item o "key_id" in
          if bool_decide (VField key_id ≠ o_key_id)
          then Raise (TypeError "invalid finalize update key operation")
          else
            let! o_value_id := py_item o "value_id" in
            if bool_decide (VField value_id ≠ o_value_id)
            then Raise (TypeError "invalid finalize update key operation")
            else Return tt
      | RemoveKeyValue _ key_id =>
          let! o_key_id := py_item o "key_id" in
          if bool_decide (VField key_id ≠ o_key_id)
          then Raise (TypeError "invalid finalize remove key operation")
          else Return tt
      | _ => Raise (NotImplementedError "")
      end.

(** The validation loop: [except TypeError] clears the process-wide cache
    and raises the exception again; other exceptions are not caught. *)
Fixpoint check_operations (pairs : list (FinalizeOperation * Operation)) : M unit :=
  match pairs with
  | [] => mret tt
  | (e, o) :: rest =>
      match check_operation e o with
      | Raise (TypeError msg) =>
          do! _ := dict_clear global_mapping_cache in
          mraise (TypeError msg)
      | Raise exn => mraise exn
      | Return _ => check_operations rest
      end
  end.

(** The transaction finalizer selected by the type of the confirmed
    transaction. *)
Definition finalize_transaction (finalize_state : FinalizeState)
    (confirmed_transaction : ConfirmedTransaction)
  : M (list FinalizeOperation * list Operation * option string) :=
  match confirmed_transaction with
  | AcceptedDeploy _ _ | RejectedDeploy _ _ _ =>
      finalize_deploy finalize_state confirmed_transaction global_mapping_cache
  | AcceptedExecute _ _ | RejectedExecute _ _ _ =>
      finalize_execute finalize_state confirmed_transaction global_mapping_cache
  end.

(** The body of the loop of [finalize_block] over the transactions. *)
Fixpoint finalize_transactions (finalize_state : FinalizeState)
    (confirmed_transactions : list ConfirmedTransaction)
    (reject_reasons : list (option string)) : M (list (option string)) :=
  match confirmed_transactions with
  | [] => mret reject_reasons
  | confirmed_transaction :: rest =>
      do! (expected_operations, operations, reject_reason) :=
        finalize_transaction finalize_state confirmed_transaction in
      if bool_decide (length expected_operations ≠ length operations)
      then mraise (TypeError "invalid finalize operation length")
      else
        do! _ := check_operations (zip expected_operations operations) in
        do! _ := execute_operations operations in
        finalize_transactions finalize_state rest (reject_reasons ++ [reject_reason])
  end.

Definition finalize_block (block : Block) : M (list (option string)) :=
  let finalize_state := mkFinalizeState block in
  finalize_transactions finalize_state (block_transactions block) [].

(** *** Preview *)

Definition preview_finalize_execution (program : Program) (function_name : Identifier)
    (inputs : list Value) : M (list Operation) :=
  fun s =>
    let block := get_latest_block ext (db s) in
    let finalize_state := mkFinalizeState block in
    (ext_preview_finalizer ext (db s) finalize_state 0 program function_name inputs, s).

(** [FinalizeOperation.Type.name]. *)
Definition type_name (t : FinalizeOperationType) : string :=
  match t with
  | TInitializeMapping => "InitializeMapping"
  | TInsertKeyValue => "InsertKeyValue"
  | TUpdateKeyValue => "UpdateKeyValue"
  | TRemoveKeyValue => "RemoveKeyValue"
  | TRemoveMapping => "RemoveMapping"
  end.

(** The loop of [preview_finalize_route] over the operations of the result;
    [updates] is the list built so far. *)
Fixpoint mapping_updates (result : list Operation) (updates : list (gmap string PyVal))
  : Result (list (gmap string PyVal)) :=
  match result with
  | [] => Return updates
  | operation :: rest =>
      let! operation_type := py_item operation "type" in
      match operation_type with
      | VType t =>
          let upd : gmap string PyVal := {[ "type" := VStr (type_name t) ]} in
          match t with
          | TInitializeMapping =>
              Raise (RuntimeError "InitializeMapping should not be returned by preview_finalize_execution (only used in deployments)")
          | TInsertKeyValue =>
              Raise (RuntimeError "InsertKeyValue should not be returned by preview_finalize_execution (only used in tests)")
          | TUpdateKeyValue =>
              let! mapping_id := py_item operation "mapping_id" in
              let! index := py_item operation "index" in
              let! key_id := py_item operation "key_id" in
              let! value_id := py_item operation "value_id" in
              let! mapping := py_item operation "mapping" in
              let! key := py_item operation "key" in
              let! value := py_item operation "value" in
              let upd :=
                <["value" := VStr (py_str ext value)]>
                (<["key" := VStr (py_str ext key)]>
                (<["mapping" := VStr (py_str ext mapping)]>
                (<["value_id" := VStr (py_str ext value_id)]>
                (<["key_id" := VStr (py_str ext key_id)]>
                (<["index" := index]>
                (<["mapping_id" := VStr (py_str ext mapping_id)]> upd)))))) in
              mapping_updates rest (updates ++ [upd])
          | TRemoveKeyValue =>
              Raise (NotImplementedError "operation not implemented in the interpreter")
          | TRemoveMapping =>
              Raise (RuntimeError "RemoveMapping should not be returned by preview_finalize_execution (only used in tests)")
          end
      | _ => Raise AttributeError
      end
  end.

(** [preview_finalize_route] once the request has been decoded into a
    program, a function of it that has a finalizer, and input values. *)
Definition preview_finalize_route (program : Program) (function_name : Identifier)
    (values : list Value) : M JSONResponse :=
  fun s =>
    match preview_finalize_execution program function_name values s with
    | (Raise (ExecuteError_ e), s') =>
        (Return (JSONError ("Execution error on instruction " +:+ double_quote
                            +:+ e_instruction e +:+ double_quote +:+ ": "
                            +:+ e_original_exception e) 400), s')
    | (Raise exn, s') => (Raise exn, s')
    | (Return result, s') =>
        (let! updates := mapping_updates result [] in
         Return (JSONMappingUpdates updates), s')
    end.

End Interpreter.

(** ** A small ledger to run the finalizer on

    Three programs: [p.aleo], whose [main] calls [a.aleo/fa] and then
    [b.aleo/fb] and whose finalize body awaits the second future before the
    first, and [credits.aleo] with the public fee function.  The stand-in for
    the instruction interpreter charges the fee with one [UpdateKeyValue]
    (writing the touched entry to the cache it is given when state changes
    are allowed) and fails on every other function. *)

Definition ex_fn_leaf (name : Identifier) : Function :=
  mkFunction name [] (Some []).

Definition ex_prog_a : Program :=
  mkProgram "a.aleo" [] {[ "fa" := ex_fn_leaf "fa" ]}.

Definition ex_prog_b : Program :=
  mkProgram "b.aleo" [] {[ "fb" := ex_fn_leaf "fb" ]}.

Definition ex_fn_main : Function :=
  mkFunction "main"
    [CallInstruction (LocatorCallOperator "a.aleo" "fa") [LocatorRegister 1];
     CallInstruction (LocatorCallOperator "b.aleo" "fb") [LocatorRegister 2];
     AsyncInstruction [RegisterOperand (LocatorRegister 1);
                       RegisterOperand (LocatorRegister 2)]]
    (Some [AwaitCommand (LocatorRegister 1); AwaitCommand (LocatorRegister 0)]).

Definition ex_prog_p : Program :=
  mkProgram "p.aleo"
    [("balances", mkMapping "address" "u64"); ("owners", mkMapping "field" "address")]
    {[ "main" := ex_fn_main ]}.

Definition ex_prog_credits : Program :=
  mkProgram "credits.aleo" [("account", mkMapping "address" "u64")]
    {[ "fee_public" := ex_fn_leaf "fee_public" ]}.

Definition ex_programs : gmap string Program :=
  {[ "a.aleo" := ex_prog_a; "b.aleo" := ex_prog_b; "p.aleo" := ex_prog_p;
     "credits.aleo" := ex_prog_credits ]}.

Definition ex_fee_operation : Operation :=
  {[ "type" := VType TUpdateKeyValue; "mapping_id" := VField 7;
     "index" := VInt 0; "key_id" := VField 1; "value_id" := VField 2;
     "mapping" := VStr "account"; "key" := VBytes "payer"; "value" := VBytes "90u64";
     "program_name" := VStr "credits.aleo"; "mapping_name" := VStr "account";
     "from_transaction" := VBool true; "height" := VInt 1 ]}.


Definition ex_initialize_operation : Operation :=
  {[ "type" := VType TInitializeMapping; "mapping_id" := VField 7 ]}.

Definition ex_fee_entry : gmap Field (gmap Field CacheEntry) :=
  {[ 7 := {[ 1 := mkCacheEntry (VBytes "payer") (VBytes "90u64") ]} ]}.

Definition ex_error : ExecuteError :=
  mkExecuteError "overflow" "add r0 r1 into r2" "overflow" 20.

Definition ex_py_str (v : PyVal) : string :=
  match v with
  | VType t => type_name t
  | VField f => pretty f +:+ "field"
  | VStr s => s
  | VInt n => pretty n
  | VBool b => if b then "True" else "False"
  | VBytes b => b
  end.

Definition ex_ext (programs : gmap string Program) : External :=
  mkExternal
    (fun id => programs !! id)
    (fun program function_name =>
       if bool_decide (function_name = "main")
       then Return [Node 0 "a.aleo/fa" None []; Node 1 "b.aleo/fb" None []]
       else Return [])
    (fun program mapping => Z.of_nat (String.length mapping))
    (fun _ _ _ _ _ function_name _ mapping_cache _ allow_state_change d =>
       if bool_decide (function_name = "fee_public")
       then (Return [ex_fee_operation],
             if allow_state_change then <[mapping_cache := ex_fee_entry]> d else d)
       else (Raise (ExecuteError_ ex_error), d))
    (fun _ => mkBlock 0 [])
    (fun _ _ _ _ function_name _ =>
       if bool_decide (function_name = "fee_public")
       then Return [ex_fee_operation]
       else Return [ex_fee_operation; {[ "type" := VType TRemoveKeyValue ]}])
    ex_py_str
    (fun v => match v with VBytes b => Return b | _ => Raise AttributeError end).

Definition ex_future (program function_name : string) : TransitionOutput :=
  FutureTransitionOutput (Some (mkFuture program function_name [])).

Definition ex_fee_public : Fee :=
  mkFee (mkTransition 99 "credits.aleo" "fee_public"
           [ex_future "credits.aleo" "fee_public"]).

Definition ex_fee_private : Fee :=
  mkFee (mkTransition 98 "credits.aleo" "fee_private" []).

Definition ex_execution : Execution :=
  mkExecution [mkTransition 10 "a.aleo" "fa" [ex_future "a.aleo" "fa"];
               mkTransition 20 "b.aleo" "fb" [ex_future "b.aleo" "fb"];
               mkTransition 30 "p.aleo" "main" [ex_future "p.aleo" "main"]].

Definition ex_store : Store := mkStore {[ global_mapping_cache := ∅ ]} [].

Definition ex_finalize_state : FinalizeState := mkFinalizeState (mkBlock 1 []).

(** An accepted deploy of [p.aleo] with a private fee, whose expected
    operations are the two initializations the finalizer derives. *)
Definition ex_deploy_p : ConfirmedTransaction :=
  AcceptedDeploy (DeployTransaction (mkDeployment ex_prog_p) ex_fee_private)
    [InitializeMapping 8; InitializeMapping 6].

(** An accepted deploy of [a.aleo] with a public fee, recorded with no
    expected operation: the finalizer derives the fee operation. *)
Definition ex_deploy_a_short : ConfirmedTransaction :=
  AcceptedDeploy (DeployTransaction (mkDeployment ex_prog_a) ex_fee_public) [].

(** The same deploy recorded with a fee operation whose value identifier is
    not the one the finalizer derives. *)
Definition ex_deploy_a_wrong_value : ConfirmedTransaction :=
  AcceptedDeploy (DeployTransaction (mkDeployment ex_prog_a) ex_fee_public)
    [UpdateKeyValue 7 1 3].

(** The execution of [p.aleo/main], rejected, with a public fee; and the same
    execution accepted, without fee. *)
Definition ex_rejected_execute : ConfirmedTransaction :=
  RejectedExecute (FeeTransaction ex_fee_public) (RejectedExecution ex_execution)
    [UpdateKeyValue 7 1 2].

Definition ex_accepted_execute : ConfirmedTransaction :=
  AcceptedExecute (ExecuteTransaction ex_execution None) [UpdateKeyValue 7 1 2].

Definition ex_block : Block := mkBlock 1 [ex_deploy_p; ex_deploy_a_short].

Definition ex_db_after_deploy_p : list DbCall :=
  [initialize_mapping "8field" "p.aleo" "balances";
   initialize_mapping "6field" "p.aleo" "owners"].

(** The dictionaries once the public fee has been finalized: the global
    cache holds the entry the fee wrote, and the local cache made for the
    call is empty. *)
Definition ex_dicts_after_fee : gmap nat (gmap Field (gmap Field CacheEntry)) :=
  <[1%nat := ∅]> {[ global_mapping_cache := ex_fee_entry ]}.

(** ** Bootstrap of the builtin programs *)

(** The calls [init_builtin_program] sends to the database. *)
Inductive BuiltinDbCall :=
| initialize_builtin_mapping (mapping_id program_id mapping : string)
| save_builtin_program (program : Program).

Section Builtin.
Context (ext : External).
(** [db.get_program(id) is not None], given the calls sent so far. *)
Context (has_program : list BuiltinDbCall -> string -> bool).

(** The loop of [init_builtin_program] over the names of the mappings;
    [calls] are the calls sent so far. *)
Fixpoint init_builtin_mappings (program : Program) (names : list Identifier)
    (calls : list BuiltinDbCall) : list BuiltinDbCall :=
  match names with
  | [] => calls
  | mapping :: rest =>
      let mapping_id := cached_get_mapping_id ext (program_id program) mapping in
      let calls :=
        calls ++ [initialize_builtin_mapping (py_str ext (VField mapping_id))
                    (py_str ext (VStr (program_id program)))
                    (py_str ext (VStr mapping))] in
      let calls :=
        if has_program calls (py_str ext (VStr (program_id program)))
        then calls
        else calls ++ [save_builtin_program program] in
      init_builtin_mappings program rest calls
  end.

Definition init_builtin_program (program : Program) (calls : list BuiltinDbCall)
  : list BuiltinDbCall :=
  init_builtin_mappings program (map fst (mappings program)) calls.

End Builtin.

(** A database for the bootstrap that holds no program at first and finds a
    program again once it has been saved. *)
Definition ex_has_program (calls : list BuiltinDbCall) (id : string) : bool :=
  existsb
    (fun c => match c with
              | save_builtin_program program => String.eqb (program_id program) id
              | initialize_builtin_mapping _ _ _ => false
              end)
    calls.

(** ** The preview route, from the request on *)

(** A decoded JSON value; an object is given by the items of the decoded
    [dict], whose keys are distinct. *)
Inductive Json :=
| JNull
| JBool (b : bool)
| JNumber (n : Z)
| JFloat (repr : string) (zero : bool)
| JString (s : string)
| JArray (items : list Json)
| JObject (fields : list (string * Json)).

(** [j.get(k)] on the decoded body: a missing key gives [None]; what is not a
    [dict] has no [get]. *)
Definition json_get (j : Json) (k : string) : Result Json :=
  match j with
  | JObject fields =>
      Return (default JNull (snd <$> find (fun kv => bool_decide (kv.1 = k)) fields))
  | _ => Raise AttributeError
  end.

(** Python's truth value of a decoded JSON value. *)
Definition truthy (j : Json) : bool :=
  match j with
  | JNull => false
  | JBool b => b
  | JNumber n => negb (n =? 0)
  | JFloat _ zero => negb zero
  | JString s => negb (bool_decide (s = ""))
  | JArray items => negb (bool_decide (items = []))
  | JObject fields => negb (bool_decide (fields = []))
  end.

(** The type of a finalize input, as far as the route tells them apart. *)
Inductive FinalizeInputType :=
| LiteralInput (primitive_type : string)
| StructInput (struct : Identifier)
| OtherInput.

(** What the route takes from [node.types] and from the database. *)
Record RouteExternal := mkRouteExternal {
  (** [Program.load(BytesIO(await db.get_program(program_id)))]: [None] when
      any of it raises. *)
  load_program : Json -> option Program;
  (** [Identifier.loads(transition_name)]. *)
  identifier_loads : Json -> Result Identifier;
  (** The plaintext types of [function.finalize.value[1].inputs]. *)
  finalize_inputs : Function -> list FinalizeInputType;
  (** [str(x)] on a decoded JSON value. *)
  json_str : Json -> string;
  (** [primitive_type.loads(s)] wrapped as a literal plaintext: [None] when
      it raises. *)
  primitive_loads : string -> string -> option Plaintext;
  (** [name in program.structs]. *)
  has_struct : Program -> Identifier -> bool;
  (** [StructPlaintext.loads(x, structs[name], structs)]. *)
  struct_loads : Program -> Identifier -> Json -> Result Plaintext;
  (** [str(e)] on an exception. *)
  exn_str : Exn -> string;
}.

Section PreviewRequest.
Context (ext : External) (rext : RouteExternal).

(** The loop over the finalize inputs: [inl] is a response returned from
    inside the loop, [inr] the values when the loop ends.  The route collects
    plaintexts; they are handed on as plaintext values. *)
Fixpoint preview_values (program : Program) (inputs : list Json) (index : nat)
    (input_types : list FinalizeInputType) (values : list Value)
  : Result (JSONResponse + list Value) :=
  match input_types with
  | [] => Return (inr values)
  | LiteralInput primitive_type :: rest =>
      let invalid :=
        Return (inl (JSONError ("Invalid input for index " +:+ pretty index) 400)) in
      match py_index inputs (Z.of_nat index) with
      | Raise _ => invalid
      | Return input =>
          match primitive_loads rext primitive_type (json_str rext input) with
          | None => invalid
          | Some plaintext =>
              preview_values program inputs (S index) rest
                (values ++ [PlaintextValue plaintext])
          end
      end
  | StructInput struct :: rest =>
      if negb (has_struct rext program struct) then Raise (KeyError struct)
      else
        match (let! input := py_index inputs (Z.of_nat index) in
               struct_loads rext program struct input) with
        | Raise e =>
            Return (inl (JSONError
                           ("Invalid input for index " +:+ pretty index +:+ ": "
                            +:+ exn_str rext e
                            +:+ " (experimental feature, if you believe this is an error please submit a feedback)")
                           400))
        | Return plaintext =>
            preview_values program inputs (S index) rest
              (values ++ [PlaintextValue plaintext])
        end
  | OtherInput :: _ => Return (inl (JSONError "Unknown input type" 500))
  end.

(** [preview_finalize_route] on the decoded body of the request. *)
Definition preview_finalize_route_request (json : Json) : M JSONResponse :=
  do! program_id := lift (json_get json "program_id") in
  do! transition_name := lift (json_get json "transition_name") in
  do! inputs := lift (json_get json "inputs") in
  if negb (truthy program_id) then mret (JSONError "Missing program_id" 400)
  else if negb (truthy transition_name) then mret (JSONError "Missing transition_name" 400)
  else
    match inputs with
    | JNull => mret (JSONError "Missing inputs (pass empty array for no input)" 400)
    | JArray inputs =>
        match load_program rext program_id with
        | None => mret (JSONError "Program not found" 404)
        | Some program =>
            do! function_name := lift (identifier_loads rext transition_name) in
            match functions program !! function_name with
            | None => mret (JSONError "Transition not found" 404)
            | Some function =>
                match fn_finalize function with
                | None => mret (JSONError "Transition does not have a finalizer" 400)
                | Some _ =>
                    do! outcome :=
                      lift (preview_values program inputs 0
                              (finalize_inputs rext function) []) in
                    match outcome with
                    | inl response => mret response
                    | inr values =>
                        preview_finalize_route ext program function_name values
                    end
                end
            end
        end
    | _ => mret (JSONError "Inputs must be an array" 400)
    end.

End PreviewRequest.

(** ** Chain routes ([webapi/chain_routes.py]) *)

Inductive IndexUpdateResponse (Summary Rows : Type) :=
| IndexUpdateError (error : string) (status_code : Z)
| IndexUpdateSummary (summary : Summary)
| IndexUpdateResult (summary : Summary) (recent_blocks : Rows).
Arguments IndexUpdateError {Summary Rows} error status_code.
Arguments IndexUpdateSummary {Summary Rows} summary.
Arguments IndexUpdateResult {Summary Rows} summary recent_blocks.

(** What [validators_route] has settled when it asks the database for the
    validators of a page. *)
Inductive ValidatorsRange :=
| ValidatorsError (error : string) (status_code : Z)
| ValidatorsPage (latest_height start stop page total_pages : Z).

Section ChainRoutes.
Context {Summary Rows : Type}.
(** [int(s)] on a query parameter: [None] when it raises. *)
Context (py_int : string -> option Z).
(** [get_summary(db)], [db.get_latest_height()],
    [db.get_recent_blocks_fast(n)], [db.get_validator_count_at_height(h)]. *)
Context (get_summary : Summary) (get_latest_height : option Z)
        (get_recent_blocks_fast : Z -> Rows)
        (get_validator_count_at_height : Z -> option Z).

Definition index_update_route (last_block : option string)
  : IndexUpdateResponse Summary Rows :=
  match last_block with
  | None => IndexUpdateError "Missing last_block parameter" 400
  | Some last_block =>
      match py_int last_block with
      | None => IndexUpdateError "Invalid last_block parameter" 400
      | Some last_block =>
          if last_block <? 0
          then IndexUpdateError "Negative last_block parameter" 400
          else
            let summary := get_summary in
            match get_latest_height with
            | None => IndexUpdateError "Database error" 500
            | Some latest_height =>
                let block_count := latest_height - last_block in
                if block_count <? 0 then IndexUpdateSummary summary
                else
                  let block_count := if 10 <? block_count then 10 else block_count in
                  IndexUpdateResult summary (get_recent_blocks_fast block_count)
            end
      end
  end.

(** [validators_route] up to the call of
    [db.get_validators_range_at_height(latest_height, start, start + 50)]. *)
Definition validators_route_range (p : option string) : ValidatorsRange :=
  match (match p with None => Some 1 | Some p => py_int p end) with
  | None => ValidatorsError "Invalid page" 400
  | Some page =>
      match get_latest_height with
      | None => ValidatorsError "No blocks found" 500
      | Some latest_height =>
          match get_validator_count_at_height latest_height with
          | None => ValidatorsError "No validators found" 500
          | Some total_validators =>
              if total_validators =? 0
              then ValidatorsError "No validators found" 500
              else
                let total_pages := total_validators / 50 + 1 in
                if (page <? 1) || (total_pages <? page)
                then ValidatorsError "Invalid page" 400
                else
                  let start := 50 * (page - 1) in
                  ValidatorsPage latest_height start (start + 50) page total_pages
          end
      end
  end.

End ChainRoutes.

(** ** Pledge addresses ([config/pledge.py]) *)

Record PledgeConfig := mkPledgeConfig { addresses : gset string }.

Definition comma : Ascii.ascii := Ascii.ascii_of_nat 44.

Section Pledge.
(** [str.strip()]. *)
Context (py_strip : string -> string).

(** [PledgeConfig.from_env]: [environ] is [os.environ], [instance] the class
    attribute [_instance]; the result is the configuration returned and the
    attribute afterwards. *)
Definition from_env (environ : gmap string string) (instance : option PledgeConfig)
  : PledgeConfig * option PledgeConfig :=
  match instance with
  | None =>
      let pledge_addresses : gset string :=
        match environ !! "PLEDGE_ADDRESS" with
        | Some pledge_str =>
            if bool_decide (pledge_str = "") then ∅
            else list_to_set (py_strip <$> split comma pledge_str)
        | None => ∅
        end in
      let config := mkPledgeConfig pledge_addresses in
      (config, Some config)
  | Some config => (config, Some config)
  end.

Definition is_pledge_address (config : PledgeConfig) (address : string) : bool :=
  bool_decide (address ∈ addresses config).

End Pledge.

(** ** Mapping routes ([api/mapping_routes.py]) *)

Inductive MappingListResponse :=
| MappingListError (error : string) (status_code : Z)
| MappingList (names : list string).

Section MappingRoutes.
(** [db.get_program(id)] (the serialized program, if any) and
    [Program.load(BytesIO(bytes))]. *)
Context (db_get_program : string -> option string)
        (program_load : string -> Result Program).

(** [mapping_list_route] on the program cache it is given: the response, or
    the exception, and the cache afterwards. *)
Definition mapping_list_route (program_id : string) (program_cache : gmap string Program)
  : Result MappingListResponse * gmap string Program :=
  match program_cache !! program_id with
  | Some program => (Return (MappingList (map fst (mappings program))), program_cache)
  | None =>
      match db_get_program program_id with
      | None => (Return (MappingListError "Program not found" 404), program_cache)
      | Some bytes =>
          if bool_decide (bytes = "")
          then (Return (MappingListError "Program not found" 404), program_cache)
          else
            match program_load bytes with
            | Raise e => (Raise e, program_cache)
            | Return program =>
                (Return (MappingList (map fst (mappings program))),
                 <[program_id := program]> program_cache)
            end
      end
  end.

End MappingRoutes.

(** * Specifications *)

(** ** Validation *)

(** One pair passes the checks of the validation loop. *)
Definition operation_matches (e : FinalizeOperation) (o : Operation) : Prop :=
  o !! "type" = Some (VType (op_type e))
  ∧ o !! "mapping_id" = Some (VField (op_mapping_id e))
  ∧ match e with
    | InitializeMapping _ => True
    | UpdateKeyValue _ key_id value_id =>
        o !! "key_id" = Some (VField key_id) ∧ o !! "value_id" = Some (VField value_id)
    | RemoveKeyValue _ key_id => o !! "key_id" = Some (VField key_id)
    | InsertKeyValue _ _ _ | RemoveMapping _ => False
    end.


(** The actual operations of a transaction pass validation in full. *)
Definition validated (expected : list FinalizeOperation) (operations : list Operation)
  : Prop :=
  length expected = length operations ∧ Forall2 operation_matches expected operations.

(** ** Preview and deployments *)

(** What the response holds for one operation of the result. *)
Definition update_of (o : Operation) (u : gmap string PyVal) : Prop :=
  o !! "type" = Some (VType TUpdateKeyValue)
  ∧ u !! "type" = Some (VStr "UpdateKeyValue").

(** The operations [finalize_deploy] synthesizes for the mappings of a
    program, in declaration order. *)
Definition initialize_operations (ext : External) (program : Program)
  : list Operation :=
  map (initialize_mapping_operation ext program) (map fst (mappings program)).

(** The fee step of [finalize_deploy]: the public fee is finalized against a
    new, empty local cache with state changes allowed; any other fee
    contributes nothing. *)
Definition deploy_fee_operations (ext : External) (finalize_state : FinalizeState)
    (fee : Fee) (mapping_cache : nat) : M (list Operation) :=
  if bool_decide (tr_function_name (fee_transition fee) = "fee_public")
  then do! fresh_cache := new_dict in
       _execute_public_fee ext finalize_state (fee_transition fee) mapping_cache
         fresh_cache true
  else mret [].

(** ** The database *)

(** A computation that leaves the database as it found it. *)
Definition keeps_db {A} (m : M A) : Prop :=
  ∀ s r s', m s = (r, s') → db s' = db s.

(** ** Depth-first order of the awaits *)

(** Induction on a call graph node, with the property at hand for all the
    children. *)
Fixpoint CallGraphNode_forall_ind (P : CallGraphNode → Prop)
    (H : ∀ i nm t calls, Forall P calls → P (Node i nm t calls))
    (n : CallGraphNode) {struct n} : P n :=
  match n with
  | Node i nm t calls =>
      H i nm t calls
        ((fix children (l : list CallGraphNode) : Forall P l :=
            match l with
            | [] => List.Forall_nil P
            | c :: l' =>
                List.Forall_cons P c l' (CallGraphNode_forall_ind P H c) (children l')
            end) calls)
  end.

(** The register maps without the tracers. *)
Definition forget {T} (c : CallGraphNode * T) : CallGraphNode * unit := (c.1, tt).

Section DepthFirstSpec.
Context (ext : External) (transition_ids : list TransitionID).

(** [depth_first program function_name node sub]: tracing [function_name] of
    [program] at [node] contributes the transition ids [sub].  A function
    without finalizer contributes nothing.  Otherwise, with the children of
    the node carrying their transition ids and [registers] the map from the
    parameters of the finalize body to the children whose futures they
    receive, the commands are read in order: an [await] of a register
    contributes the id of the child it resolves to, then everything the
    function of that child contributes, and only then do the later commands
    contribute.  The id of a child is the transition id found at the index of
    the child. *)
Inductive depth_first
  : Program → Identifier → CallGraphNode → list TransitionID → Prop :=
| depth_first_no_finalize program function_name node function children :
    add_transition_ids transition_ids (map (fun c => (c, tt)) (node_calls node))
    = Return children →
    functions program !! function_name = Some function →
    fn_finalize function = None →
    depth_first program function_name node []
| depth_first_finalize program function_name node function commands children
    registers sub :
    add_transition_ids transition_ids (map (fun c => (c, tt)) (node_calls node))
    = Return children →
    functions program !! function_name = Some function →
    fn_finalize function = Some commands →
    trace_instructions ext children (fn_instructions function) 0 ∅ ∅
    = Return registers →
    depth_first_awaits registers commands sub →
    depth_first program function_name node sub
with depth_first_awaits
  : gmap Z (CallGraphNode * unit) → list Command → list TransitionID → Prop :=
| depth_first_done registers :
    depth_first_awaits registers [] []
| depth_first_skip registers rest sub :
    depth_first_awaits registers rest sub →
    depth_first_awaits registers (OtherCommand :: rest) sub
| depth_first_await registers register rest child t p f called_program
    sub_child sub_rest :
    registers !! register_locator register = Some (child, tt) →
    node_transition_id child = Some t →
    py_index transition_ids (node_index child) = Return t →
    split_name (node_name child) = Return (p, f) →
    get_program ext p = Some called_program →
    depth_first called_program f child sub_child →
    depth_first_awaits registers rest sub_rest →
    depth_first_awaits registers (AwaitCommand register :: rest)
      (t :: sub_child ++ sub_rest).

Scheme depth_first_mutind := Minimality for depth_first Sort Prop
  with depth_first_awaits_mutind := Minimality for depth_first_awaits Sort Prop.

(** Whatever a tracer returns is the order it was given followed by a
    depth-first order of the node. *)
Definition sound (c : CallGraphNode) (tracer : Tracer) : Prop :=
  ∀ p f order order',
    tracer p f order = Return order' →
    ∃ sub, order' = order ++ sub ∧ depth_first p f c sub.

(** The node carries the transition id found at its index. *)
Definition carries_id (c : CallGraphNode) : Prop :=
  ∃ t, node_transition_id c = Some t
       ∧ py_index transition_ids (node_index c) = Return t.

(** The tracer attached to a callee is the tracer on its node. *)
Definition faithful (c : Callee) : Prop :=
  ∀ p f o, c.2 p f o = _trace_execution ext transition_ids p f c.1 o.

End DepthFirstSpec.

(** The shape of the rejection reason of one transaction. *)
Definition reason_fits (ct : ConfirmedTransaction) (reason : option string) : Prop :=
  match ct with
  | AcceptedDeploy _ _ => reason = None
  | RejectedDeploy _ _ _ => reason = Some "(detailed reason not available)"
  | RejectedExecute _ _ _ => reason ≠ None
  | AcceptedExecute _ _ => True
  end.

(** [c] occurs in [s]. *)
Fixpoint has_char (c : Ascii.ascii) (s : string) : bool :=
  match s with
  | EmptyString => false
  | String a s' => Ascii.eqb a c || has_char c s'
  end.

(** The call initializes a builtin mapping (rather than saving a program). *)
Definition is_initialize_builtin_mapping (c : BuiltinDbCall) : bool :=
  match c with
  | initialize_builtin_mapping _ _ _ => true
  | save_builtin_program _ => false
  end.

(** The input is a literal of the expected type that loads. *)
Definition loads_literal (rext : RouteExternal) (ty : FinalizeInputType) (input : Json)
  : Prop :=
  ∃ primitive_type plaintext,
    ty = LiteralInput primitive_type
    ∧ primitive_loads rext primitive_type (json_str rext input) = Some plaintext.

(** * Properties *)

(** ** Basic facts about results and the store monad *)

Lemma py_item_Return {V} (d : gmap string V) k v :
  py_item d k = Return v ↔ d !! k = Some v.
Proof. unfold py_item. destruct (d !! k); split; congruence. Qed.

Lemma py_index_last {A} (l : list A) x :
  py_index (l ++ [x]) (-1) = Return x.
Proof.
  unfold py_index. rewrite length_app. simpl length.
  replace (-1 <? 0) with true by reflexivity.
  replace (Z.of_nat (length l + 1) + -1) with (Z.of_nat (length l)) by lia.
  rewrite (proj2 (Z.ltb_ge _ 0)) by lia.
  rewrite (proj2 (Z.leb_gt _ _)) by lia. simpl.
  rewrite Nat2Z.id, lookup_app_r by lia.
  by rewrite Nat.sub_diag.
Qed.

Lemma py_index_nil {A} (i : Z) : py_index (@nil A) i = Raise IndexError.
Proof.
  unfold py_index. simpl length.
  destruct (_ || _) eqn:Hi; [done|].
  apply orb_false_iff in Hi as [H1 H2].
  apply Z.ltb_ge in H1. apply Z.leb_gt in H2.
  destruct (Z.ltb_spec i 0); simpl in *; lia.
Qed.

(** ** Validation of the actual operations against the expected ones *)

Lemma check_operation_Return e o :
  check_operation e o = Return tt ↔ operation_matches e o.
Proof.
  unfold check_operation, operation_matches, py_item.
  split.
  - destruct (o !! "type") as [ty|] eqn:Hty; simpl; [|done].
    case_bool_decide as H1; [done|]. subst ty.
    destruct (o !! "mapping_id") as [mid|] eqn:Hmid; simpl; [|done].
    case_bool_decide as H2; [done|]. subst mid.
    destruct e; simpl; try done.
    + destruct (o !! "key_id") as [k|]; simpl; [|done].
      case_bool_decide as H3; [done|]. subst k.
      destruct (o !! "value_id") as [v|]; simpl; [|done].
      case_bool_decide as H4; [done|]. by subst v.
    + destruct (o !! "key_id") as [k|]; simpl; [|done].
      case_bool_decide as H3; [done|]. by subst k.
  - intros (-> & -> & He). simpl.
    rewrite !bool_decide_eq_false_2 by (by intros []).
    destruct e; simpl in *; try done.
    + destruct He as [-> ->]. simpl.
      by rewrite !bool_decide_eq_false_2 by (by intros []).
    + rewrite He. simpl. by rewrite !bool_decide_eq_false_2 by (by intros []).
Qed.

(** Validation leaves the database alone, and the whole store when it
    succeeds. *)
Lemma check_operations_store pairs s r s' :
  check_operations pairs s = (r, s') →
  db s' = db s ∧ (r = Return tt → s' = s).
Proof.
  revert s r s'. induction pairs as [|[e o] pairs IH]; intros s r s'; simpl.
  - unfold mret. by intros [= <- <-].
  - destruct (check_operation e o) as [[]|[]]; unfold mbind, mraise, dict_clear;
      simpl; try (intros [= <- <-]; by split); apply IH.
Qed.

Lemma check_operations_Return pairs s :
  (check_operations pairs s).1 = Return tt ↔
  Forall (fun p => operation_matches p.1 p.2) pairs.
Proof.
  induction pairs as [|[e o] pairs IH]; simpl.
  - split; [by constructor | done].
  - rewrite Forall_cons. simpl. rewrite <- IH, <- check_operation_Return.
    destruct (check_operation e o) as [[]|[]]; unfold mbind, mraise, dict_clear;
      simpl; try (split; [done | by intros [? _]]).
    split; [by split | by intros [_ ?]].
Qed.

Lemma check_operations_zip expected operations s :
  length expected = length operations →
  (check_operations (zip expected operations) s).1 = Return tt ↔
  Forall2 operation_matches expected operations.
Proof.
  rewrite check_operations_Return.
  revert operations.
  induction expected as [|e expected IH]; intros [|o operations] Hlen;
    simpl in *; try done.
  rewrite Forall_cons, Forall2_cons. simpl.
  rewrite IH by lia. done.
Qed.




(** ** The preview route *)

Lemma mapping_updates_Return ext result acc updates :
  mapping_updates ext result acc = Return updates →
  ∃ new, updates = acc ++ new ∧ Forall2 update_of result new.
Proof.
  revert acc. induction result as [|o result IH]; intros acc; simpl.
  - intros [= <-]. exists []. by rewrite app_nil_r.
  - unfold py_item.
    destruct (o !! "type") as [[[]| | | | |]|] eqn:Hty; simpl; try done.
    destruct (o !! "mapping_id"); simpl; [|done].
    destruct (o !! "index"); simpl; [|done].
    destruct (o !! "key_id"); simpl; [|done].
    destruct (o !! "value_id"); simpl; [|done].
    destruct (o !! "mapping"); simpl; [|done].
    destruct (o !! "key"); simpl; [|done].
    destruct (o !! "value"); simpl; [|done].
    intros H. apply IH in H as (new & -> & Hnew).
    eexists (_ :: new). split; [by rewrite <- app_assoc|].
    constructor; [|done]. split; [done|].
    by rewrite !lookup_insert_ne, lookup_singleton_eq.
Qed.

(** C9: a response with mapping updates answers a preview result made of
    [UpdateKeyValue] operations only, one update per operation; and when the
    preview result holds an operation of any other kind the route raises. *)
Theorem preview_finalize_route_only_updates
    (ext : External) (program : Program) (function_name : Identifier)
    (values : list Value) (s : Store) :
  (∀ updates s',
     preview_finalize_route ext program function_name values s
     = (Return (JSONMappingUpdates updates), s') →
     ∃ result,
       preview_finalize_execution ext program function_name values s
       = (Return result, s')
       ∧ Forall2 update_of result updates)
  ∧ (∀ result s' i o,
       preview_finalize_execution ext program function_name values s
       = (Return result, s') →
       result !! i = Some o →
       o !! "type" ≠ Some (VType TUpdateKeyValue) →
       ∃ e, preview_finalize_route ext program function_name values s = (Raise e, s')).
Proof.
  assert (∀ result s',
            preview_finalize_execution ext program function_name values s
            = (Return result, s') →
            (∃ e, preview_finalize_route ext program function_name values s
                  = (Raise e, s'))
            ∨ (∃ updates, preview_finalize_route ext program function_name values s
                          = (Return (JSONMappingUpdates updates), s')
                          ∧ Forall2 update_of result updates)) as Hcases.
  { intros result s' Hexec. unfold preview_finalize_route. rewrite Hexec.
    destruct (mapping_updates ext result []) as [e|updates] eqn:Hupd; simpl.
    - left. by exists e.
    - right. exists updates. split; [done|].
      apply mapping_updates_Return in Hupd as (new & -> & Hnew). done. }
  split.
  - intros updates s' Hroute.
    unfold preview_finalize_route in Hroute.
    destruct (preview_finalize_execution ext program function_name values s)
      as [[e|result] s1] eqn:Hexec.
    + destruct e; inversion Hroute.
    + destruct (mapping_updates ext result []) as [e|updates'] eqn:Hupd;
        simpl in Hroute; inversion Hroute; subst.
      exists result. split; [done|].
      apply mapping_updates_Return in Hupd as (new & -> & Hnew). done.
  - intros result s' i o Hexec Hi Hty.
    destruct (Hcases result s' Hexec) as [He|(updates & _ & Hall)]; [done|].
    exfalso.
    destruct (Forall2_lookup_l _ _ _ _ _ Hall Hi) as (u & _ & Ho & _).
    done.
Qed.

Lemma preview_finalize_route_only_updates_witness :
  (∃ result,
     preview_finalize_execution (ex_ext ex_programs) ex_prog_credits "fee_public" []
       ex_store = (Return result, ex_store)
     ∧ Forall2 update_of result
         [ <["value" := VStr "90u64"]> (<["key" := VStr "payer"]>
           (<["mapping" := VStr "account"]> (<["value_id" := VStr "2field"]>
           (<["key_id" := VStr "1field"]> (<["index" := VInt 0]>
           (<["mapping_id" := VStr "7field"]>
              {[ "type" := VStr "UpdateKeyValue" ]})))))) ])
  ∧ (∃ e, preview_finalize_route (ex_ext ex_programs) ex_prog_p "main" [] ex_store
          = (Raise e, ex_store)).
Proof.
  split.
  - apply (proj1 (preview_finalize_route_only_updates (ex_ext ex_programs)
                    ex_prog_credits "fee_public" [] ex_store)).
    vm_compute. reflexivity.
  - apply (proj2 (preview_finalize_route_only_updates (ex_ext ex_programs)
                    ex_prog_p "main" [] ex_store)
             [ex_fee_operation; {[ "type" := VType TRemoveKeyValue ]}] ex_store
             1%nat {[ "type" := VType TRemoveKeyValue ]}).
    + vm_compute. reflexivity.
    + reflexivity.
    + vm_compute. discriminate.
Defined.

(** ** Deployments *)

(** One operation per declared mapping, of kind [InitializeMapping], naming
    the mapping and carrying its identifier. *)
Lemma initialize_operations_spec ext program :
  Forall2
    (fun (decl : Identifier * Mapping) (o : Operation) =>
       o !! "type" = Some (VType TInitializeMapping)
       ∧ o !! "mapping" = Some (VStr decl.1)
       ∧ o !! "program_id" = Some (VStr (program_id program))
       ∧ o !! "mapping_id"
         = Some (VField (cached_get_mapping_id ext (program_id program) decl.1)))
    (mappings program) (initialize_operations ext program).
Proof.
  unfold initialize_operations.
  induction (mappings program) as [|[m decl] l IH]; simpl; constructor; [|done].
  unfold initialize_mapping_operation. simpl. by repeat split.
Qed.

(** C10: when the fee of a deploy is not [fee_public], the fee step adds no
    operation.  An accepted deploy returns exactly one dictionary per mapping
    of its program, in declaration order, each of kind [InitializeMapping]
    and carrying the identifier of the mapping, the program and the name of
    the mapping, with no rejection reason; a rejected deploy returns the
    empty list; the store is not touched. *)
Theorem finalize_deploy_without_public_fee
    (ext : External) (finalize_state : FinalizeState) (fee : Fee)
    (finalize : list FinalizeOperation) (mapping_cache : nat) (s : Store)
    (Hfee : tr_function_name (fee_transition fee) ≠ "fee_public") :
  (∀ deployment,
     ∃ operations : list Operation,
       finalize_deploy ext finalize_state
         (AcceptedDeploy (DeployTransaction deployment fee) finalize) mapping_cache s
       = (Return (finalize, operations, None), s)
       ∧ operations
         = map (fun decl : Identifier * Mapping =>
                  {[ "type" := VType TInitializeMapping;
                     "mapping_id" :=
                       VField (cached_get_mapping_id ext
                                 (program_id (deployment_program deployment)) decl.1);
                     "program_id" := VStr (program_id (deployment_program deployment));
                     "mapping" := VStr decl.1 ]})
               (mappings (deployment_program deployment))
       ∧ Forall (fun o : Operation => o !! "type" = Some (VType TInitializeMapping))
           operations)
  ∧ (∀ deployment rejected,
       finalize_deploy ext finalize_state
         (RejectedDeploy (DeployTransaction deployment fee) rejected finalize)
         mapping_cache s
       = (Return (finalize, [], Some "(detailed reason not available)"), s))
  ∧ (∀ rejected,
       finalize_deploy ext finalize_state
         (RejectedDeploy (FeeTransaction fee) rejected finalize) mapping_cache s
       = (Return (finalize, [], Some "(detailed reason not available)"), s)).
Proof.
  split_and!.
  - intros deployment. eexists. split_and!.
    + unfold finalize_deploy; simpl. unfold mbind, mret; simpl.
      by rewrite bool_decide_eq_false_2 by done.
    + by rewrite List.map_map.
    + apply List.Forall_map, Forall_forall. by intros decl _.
  - intros. unfold finalize_deploy; simpl. unfold mbind, mret; simpl.
    by rewrite bool_decide_eq_false_2 by done.
  - intros. unfold finalize_deploy; simpl. unfold mbind, mret; simpl.
    by rewrite bool_decide_eq_false_2 by done.
Qed.

Lemma finalize_deploy_without_public_fee_witness :
  ∃ operations : list Operation,
    finalize_deploy (ex_ext ex_programs) ex_finalize_state
      (AcceptedDeploy (DeployTransaction (mkDeployment ex_prog_p) ex_fee_private) [])
      global_mapping_cache ex_store
    = (Return ([], operations, None), ex_store)
    ∧ operations
      = [ {[ "type" := VType TInitializeMapping;
             "mapping_id" := VField 8;
             "program_id" := VStr "p.aleo";
             "mapping" := VStr "balances" ]};
          {[ "type" := VType TInitializeMapping;
             "mapping_id" := VField 6;
             "program_id" := VStr "p.aleo";
             "mapping" := VStr "owners" ]} ]
    ∧ Forall (fun o : Operation => o !! "type" = Some (VType TInitializeMapping))
        operations.
Proof.
  apply (proj1 (finalize_deploy_without_public_fee (ex_ext ex_programs)
                  ex_finalize_state ex_fee_private [] global_mapping_cache ex_store
                  ltac:(vm_compute; discriminate)) (mkDeployment ex_prog_p)).
Defined.

(** C7: when the fee step of a deploy returns [fee_operations], an accepted
    deploy returns them followed by one [InitializeMapping] operation per
    mapping of the deployed program, in declaration order, with no rejection
    reason; a rejected deploy returns the fee operations alone with the
    generic reason. *)
Theorem finalize_deploy_accepted_and_rejected
    (ext : External) (finalize_state : FinalizeState) (fee : Fee)
    (finalize : list FinalizeOperation) (mapping_cache : nat) (s s' : Store)
    (fee_operations : list Operation)
    (Hfee : deploy_fee_operations ext finalize_state fee mapping_cache s
            = (Return fee_operations, s')) :
  (∀ deployment,
     finalize_deploy ext finalize_state
       (AcceptedDeploy (DeployTransaction deployment fee) finalize) mapping_cache s
     = (Return (finalize,
                fee_operations
                ++ initialize_operations ext (deployment_program deployment),
                None), s')
     ∧ Forall2
         (fun (decl : Identifier * Mapping) (o : Operation) =>
            o !! "type" = Some (VType TInitializeMapping)
            ∧ o !! "mapping" = Some (VStr decl.1))
         (mappings (deployment_program deployment))
         (initialize_operations ext (deployment_program deployment)))
  ∧ (∀ transaction rejected,
       (∃ deployment, transaction = DeployTransaction deployment fee)
       ∨ transaction = FeeTransaction fee →
       finalize_deploy ext finalize_state
         (RejectedDeploy transaction rejected finalize) mapping_cache s
       = (Return (finalize, fee_operations,
                  Some "(detailed reason not available)"), s')).
Proof.
  unfold deploy_fee_operations in Hfee.
  split.
  - intros deployment. split.
    + unfold finalize_deploy. simpl. unfold mbind at 1. unfold mret at 1.
      unfold mbind at 1. rewrite Hfee. done.
    + eapply Forall2_impl; [apply initialize_operations_spec|].
      intros decl o (? & ? & _). done.
  - intros transaction rejected [[deployment ->] | ->];
      unfold finalize_deploy; simpl; unfold mbind at 1; unfold mret at 1;
      unfold mbind at 1; by rewrite Hfee.
Qed.

Lemma finalize_deploy_accepted_and_rejected_witness :
  finalize_deploy (ex_ext ex_programs) ex_finalize_state
    (AcceptedDeploy (DeployTransaction (mkDeployment ex_prog_p) ex_fee_public) [])
    global_mapping_cache ex_store
  = (Return ([],
             [ex_fee_operation] ++ initialize_operations (ex_ext ex_programs) ex_prog_p,
             None),
     mkStore ex_dicts_after_fee []).
Proof.
  assert (deploy_fee_operations (ex_ext ex_programs) ex_finalize_state ex_fee_public
            global_mapping_cache ex_store
          = (Return [ex_fee_operation],
             mkStore ex_dicts_after_fee []))
    as Hfee by (vm_compute; reflexivity).
  apply (proj1 (proj1 (finalize_deploy_accepted_and_rejected (ex_ext ex_programs)
                         ex_finalize_state ex_fee_public [] global_mapping_cache
                         ex_store _ _ Hfee) (mkDeployment ex_prog_p))).
Defined.

(** ** Public fees *)

(** C8 (as amended): [_execute_public_fee] raises [TypeError] when the
    transition is not [credits.aleo/fee_public]; for a transition of
    [credits.aleo/fee_public] it raises [IndexError] when the transition has
    no output, [TypeError] when its first output is not a future output,
    [RuntimeError] when the future value of that output is absent or the
    program of the future is not found; in the one remaining case it is the
    call of the finalizer on the function of the future, with the order
    [[fee_transition.id]] and an empty set of rejected transitions.  Nothing
    is written to the store before the finalizer is called. *)
Theorem _execute_public_fee_cases
    (ext : External) (finalize_state : FinalizeState) (fee_transition : Transition)
    (mapping_cache local_mapping_cache : nat) (allow_state_change : bool) (s : Store) :
  (tr_program_id fee_transition ≠ "credits.aleo"
   ∨ tr_function_name fee_transition ≠ "fee_public" →
   _execute_public_fee ext finalize_state fee_transition mapping_cache
     local_mapping_cache allow_state_change s
   = (Raise (TypeError "not a fee transition"), s))
  ∧ (tr_program_id fee_transition = "credits.aleo" →
     tr_function_name fee_transition = "fee_public" →
     (tr_outputs fee_transition = [] →
      _execute_public_fee ext finalize_state fee_transition mapping_cache
        local_mapping_cache allow_state_change s
      = (Raise IndexError, s))
     ∧ (py_index (tr_outputs fee_transition) 0 = Return OtherTransitionOutput →
        _execute_public_fee ext finalize_state fee_transition mapping_cache
          local_mapping_cache allow_state_change s
        = (Raise (TypeError "invalid fee transition output"), s))
     ∧ (py_index (tr_outputs fee_transition) 0 = Return (FutureTransitionOutput None) →
        _execute_public_fee ext finalize_state fee_transition mapping_cache
          local_mapping_cache allow_state_change s
        = (Raise (RuntimeError "invalid fee transition output"), s))
     ∧ (∀ future,
          py_index (tr_outputs fee_transition) 0
          = Return (FutureTransitionOutput (Some future)) →
          (get_program ext (future_program_id future) = None →
           _execute_public_fee ext finalize_state fee_transition mapping_cache
             local_mapping_cache allow_state_change s
           = (Raise (RuntimeError "program not found"), s))
          ∧ (∀ program,
               get_program ext (future_program_id future) = Some program →
               _execute_public_fee ext finalize_state fee_transition mapping_cache
                 local_mapping_cache allow_state_change s
               = execute_finalizer ext finalize_state [tr_id fee_transition] ∅
                   program (future_function_name future)
                   (load_input_from_arguments (future_arguments future))
                   mapping_cache local_mapping_cache allow_state_change s))).
Proof.
  unfold _execute_public_fee. split.
  - intros Hnot.
    destruct Hnot as [H|H].
    + by rewrite (bool_decide_eq_true_2 _ H).
    + rewrite (bool_decide_eq_true_2 (tr_function_name fee_transition ≠ _) H).
      by rewrite orb_true_r.
  - intros Hp Hf.
    rewrite !bool_decide_eq_false_2 by (intros H; by apply H). simpl.
    unfold mbind, lift, mraise.
    repeat split.
    + intros ->. done.
    + intros ->. done.
    + intros ->. done.
    + rewrite H. by intros ->.
    + intros program Hprog. rewrite H. by rewrite Hprog.
Qed.

Lemma _execute_public_fee_cases_witness :
  _execute_public_fee (ex_ext ex_programs) ex_finalize_state
    (fee_transition ex_fee_public) global_mapping_cache 1%nat true ex_store
  = execute_finalizer (ex_ext ex_programs) ex_finalize_state [99] ∅ ex_prog_credits
      "fee_public" [] global_mapping_cache 1%nat true ex_store.
Proof.
  apply (proj2 (proj2 (proj2 (proj2 (proj2
           (_execute_public_fee_cases (ex_ext ex_programs) ex_finalize_state
              (fee_transition ex_fee_public) global_mapping_cache 1%nat true ex_store)
           ltac:(reflexivity) ltac:(reflexivity))))
           (mkFuture "credits.aleo" "fee_public" []) ltac:(reflexivity))
           ex_prog_credits ltac:(reflexivity)).
Defined.

(** A fee transition of [credits.aleo/fee_public] whose first output carries
    a future, on a ledger that does not hold the program of the future: no
    finalize scope is executed. *)
Lemma _execute_public_fee_program_not_found :
  tr_program_id (fee_transition ex_fee_public) = "credits.aleo"
  ∧ tr_function_name (fee_transition ex_fee_public) = "fee_public"
  ∧ py_index (tr_outputs (fee_transition ex_fee_public)) 0
    = Return (FutureTransitionOutput (Some (mkFuture "credits.aleo" "fee_public" [])))
  ∧ _execute_public_fee (ex_ext (delete "credits.aleo" ex_programs)) ex_finalize_state
      (fee_transition ex_fee_public) global_mapping_cache 1%nat true ex_store
    = (Raise (RuntimeError "program not found"), ex_store)
  ∧ (∀ program,
       _execute_public_fee (ex_ext (delete "credits.aleo" ex_programs))
         ex_finalize_state (fee_transition ex_fee_public) global_mapping_cache
         1%nat true ex_store
       ≠ execute_finalizer (ex_ext (delete "credits.aleo" ex_programs))
           ex_finalize_state [99] ∅ program "fee_public" [] global_mapping_cache
           1%nat true ex_store).
Proof.
  repeat split; try reflexivity.
  intros program H. vm_compute in H. discriminate H.
Qed.

(** ** The database is written by the operation applier only *)

Lemma keeps_db_mret {A} (a : A) : keeps_db (mret a).
Proof. by intros s r s' [= <- <-]. Qed.

Lemma keeps_db_mraise {A} e : keeps_db (@mraise A e).
Proof. by intros s r s' [= <- <-]. Qed.

Lemma keeps_db_lift {A} (x : Result A) : keeps_db (lift x).
Proof. by intros s r s' [= <- <-]. Qed.

Lemma keeps_db_new_dict : keeps_db new_dict.
Proof. by intros s r s' [= <- <-]. Qed.

Lemma keeps_db_dict_clear l : keeps_db (dict_clear l).
Proof. by intros s r s' [= <- <-]. Qed.

Lemma keeps_db_mbind {A B} (m : M A) (k : A → M B) :
  keeps_db m → (∀ a, keeps_db (k a)) → keeps_db (mbind m k).
Proof.
  intros Hm Hk s r s'. unfold mbind.
  destruct (m s) as [[e|a] s1] eqn:Hms.
  - intros [= <- <-]. by eapply Hm.
  - intros Hka. apply Hk in Hka. apply Hm in Hms. congruence.
Qed.

Lemma keeps_db_try_except {A} (m : M A) h :
  keeps_db m → (∀ e, keeps_db (h e)) → keeps_db (try_except_ExecuteError m h).
Proof.
  intros Hm Hh s r s'. unfold try_except_ExecuteError.
  destruct (m s) as [[e|a] s1] eqn:Hms.
  - destruct e; try (intros [= <- <-]; by eapply Hm).
    intros Hhe. apply Hh in Hhe. apply Hm in Hms. congruence.
  - intros [= <- <-]. by eapply Hm.
Qed.

Lemma keeps_db_execute_finalizer ext fs order rejected program fn inputs mc lc allow :
  keeps_db (execute_finalizer ext fs order rejected program fn inputs mc lc allow).
Proof.
  intros s r s'. unfold execute_finalizer.
  destruct (ext_execute_finalizer _ _ _ _ _ _ _ _ _ _ _ _) as [r' d].
  by intros [= <- <-].
Qed.

Ltac keeps_db_step :=
  match goal with
  | |- keeps_db (mbind _ _) => apply keeps_db_mbind; [|intros]
  | |- keeps_db (mret _) => apply keeps_db_mret
  | |- keeps_db (mraise _) => apply keeps_db_mraise
  | |- keeps_db (lift _) => apply keeps_db_lift
  | |- keeps_db new_dict => apply keeps_db_new_dict
  | |- keeps_db (dict_clear _) => apply keeps_db_dict_clear
  | |- keeps_db (try_except_ExecuteError _ _) => apply keeps_db_try_except; [|intros]
  | |- keeps_db (execute_finalizer _ _ _ _ _ _ _ _ _ _) =>
      apply keeps_db_execute_finalizer
  | |- keeps_db (match ?x with _ => _ end) => destruct x
  end.

Lemma keeps_db_execute_public_fee ext fs transition mc lc allow :
  keeps_db (_execute_public_fee ext fs transition mc lc allow).
Proof. unfold _execute_public_fee. repeat keeps_db_step. Qed.

Lemma keeps_db_finalize_deploy ext fs ct mc : keeps_db (finalize_deploy ext fs ct mc).
Proof.
  unfold finalize_deploy.
  repeat (keeps_db_step || apply keeps_db_execute_public_fee).
Qed.

Lemma keeps_db_finalize_execute ext fs ct mc : keeps_db (finalize_execute ext fs ct mc).
Proof.
  unfold finalize_execute.
  repeat (keeps_db_step || apply keeps_db_execute_public_fee).
Qed.

Lemma keeps_db_finalize_transaction ext fs ct : keeps_db (finalize_transaction ext fs ct).
Proof.
  destruct ct; simpl; (apply keeps_db_finalize_deploy || apply keeps_db_finalize_execute).
Qed.

(** ** The block finalizer *)

Lemma mbind_assoc {A B C} (m : M A) (f : A → M B) (g : B → M C) s :
  mbind (mbind m f) g s = mbind m (fun a => mbind (f a) g) s.
Proof. unfold mbind. by destruct (m s) as [[e|a] s1]. Qed.

Lemma mbind_Return {A B} (m : M A) (k : A → M B) s a s1 :
  m s = (Return a, s1) → mbind m k s = k a s1.
Proof. intros H. unfold mbind. by rewrite H. Qed.

Lemma mbind_Raise {A B} (m : M A) (k : A → M B) s e s1 :
  m s = (Raise e, s1) → mbind m k s = (Raise e, s1).
Proof. intros H. unfold mbind. by rewrite H. Qed.

Lemma mbind_ext {A B} (m : M A) (f g : A → M B) s :
  (∀ a s1, f a s1 = g a s1) → mbind m f s = mbind m g s.
Proof. intros H. unfold mbind. by destruct (m s) as [[e|a] s1]. Qed.

Lemma finalize_transactions_app ext fs pre post reasons s :
  finalize_transactions ext fs (pre ++ post) reasons s
  = mbind (finalize_transactions ext fs pre reasons)
          (fun reasons' => finalize_transactions ext fs post reasons') s.
Proof.
  revert reasons s. induction pre as [|ct pre IH]; intros reasons s; [done|].
  simpl. rewrite mbind_assoc. apply mbind_ext.
  intros [[exp ops] reason] s1.
  case_bool_decide; [done|].
  rewrite mbind_assoc. apply mbind_ext. intros [] s2.
  rewrite mbind_assoc. apply mbind_ext. intros [] s3.
  apply IH.
Qed.

(** One turn of the loop, once the transaction finalizer has returned. *)
Lemma finalize_transactions_step ext fs ct rest reasons s exp ops reason s1 :
  finalize_transaction ext fs ct s = (Return (exp, ops, reason), s1) →
  (validated exp ops →
   finalize_transactions ext fs (ct :: rest) reasons s
   = (do! _ := execute_operations ext ops in
      finalize_transactions ext fs rest (reasons ++ [reason])) s1)
  ∧ (¬ validated exp ops →
     ∃ e s2, finalize_transactions ext fs (ct :: rest) reasons s = (Raise e, s2)
             ∧ db s2 = db s1).
Proof.
  intros Htx. simpl. rewrite (mbind_Return _ _ _ _ _ Htx).
  split.
  - intros [Hlen Hall]. rewrite bool_decide_eq_false_2 by (intros H; by apply H).
    destruct (check_operations (zip exp ops) s1) as [r s2] eqn:Hcheck.
    pose proof (proj2 (check_operations_zip exp ops s1 Hlen) Hall) as Hr.
    rewrite Hcheck in Hr. simpl in Hr. subst r.
    rewrite (mbind_Return _ _ _ _ _ Hcheck).
    apply check_operations_store in Hcheck as [_ ->]; done.
  - intros Hnot. case_bool_decide as Hlen.
    + by exists (TypeError "invalid finalize operation length"), s1.
    + destruct (check_operations (zip exp ops) s1) as [[e|[]] s2] eqn:Hcheck.
      * exists e, s2. rewrite (mbind_Raise _ _ _ _ _ Hcheck).
        split; [done|]. by apply check_operations_store in Hcheck as [? _].
      * exfalso. apply Hnot. split; [done|].
        apply (check_operations_zip exp ops s1 Hlen). by rewrite Hcheck.
Qed.

(** C2: in every block, once the transactions before [confirmed_transaction]
    have been finalized and the transaction finalizer has returned its
    operations, the operation applier runs on them, before any later
    transaction, when they pass validation in full; when they do not, the
    block finalizer raises and the database is the one the earlier
    transactions left. *)
Theorem finalize_block_commits_per_transaction
    (ext : External) (block : Block)
    (pre post : list ConfirmedTransaction) (confirmed_transaction : ConfirmedTransaction)
    (s s1 s2 : Store) (reject_reasons : list (option string))
    (expected_operations : list FinalizeOperation) (operations : list Operation)
    (reject_reason : option string)
    (Hblock : block_transactions block = pre ++ confirmed_transaction :: post)
    (Hpre : finalize_transactions ext (mkFinalizeState block) pre [] s
            = (Return reject_reasons, s1))
    (Htx : finalize_transaction ext (mkFinalizeState block) confirmed_transaction s1
           = (Return (expected_operations, operations, reject_reason), s2)) :
  db s2 = db s1
  ∧ (validated expected_operations operations →
     finalize_block ext block s
     = (do! _ := execute_operations ext operations in
        finalize_transactions ext (mkFinalizeState block) post
          (reject_reasons ++ [reject_reason])) s2)
  ∧ (¬ validated expected_operations operations →
     ∃ e s3, finalize_block ext block s = (Raise e, s3) ∧ db s3 = db s1).
Proof.
  pose proof (keeps_db_finalize_transaction _ _ _ _ _ _ Htx) as Hdb.
  unfold finalize_block. rewrite Hblock, finalize_transactions_app.
  rewrite (mbind_Return _ _ _ _ _ Hpre).
  destruct (finalize_transactions_step ext (mkFinalizeState block) confirmed_transaction
              post reject_reasons s1 _ _ _ _ Htx) as [Hok Hfail].
  split; [done|]. split; [done|].
  intros Hnot. destruct (Hfail Hnot) as (e & s3 & Hrun & Hdb3).
  exists e, s3. split; [done|]. congruence.
Qed.

Lemma finalize_block_commits_per_transaction_witness :
  ∃ e s3, finalize_block (ex_ext ex_programs) ex_block ex_store = (Raise e, s3)
          ∧ db s3 = ex_db_after_deploy_p.
Proof.
  assert (finalize_transactions (ex_ext ex_programs) (mkFinalizeState ex_block)
            [ex_deploy_p] [] ex_store
          = (Return [None], mkStore (dicts ex_store) ex_db_after_deploy_p))
    as Hpre by (vm_compute; reflexivity).
  assert (finalize_transaction (ex_ext ex_programs) (mkFinalizeState ex_block)
            ex_deploy_a_short (mkStore (dicts ex_store) ex_db_after_deploy_p)
          = (Return ([], [ex_fee_operation], None),
             mkStore ex_dicts_after_fee ex_db_after_deploy_p))
    as Htx by (vm_compute; reflexivity).
  apply (proj2 (proj2 (finalize_block_commits_per_transaction (ex_ext ex_programs)
                         ex_block [ex_deploy_p] [] ex_deploy_a_short ex_store _ _ _ _ _ _
                         eq_refl Hpre Htx))).
  intros [Hlen _]. discriminate Hlen.
Defined.

(** A [TypeError] raised by the pairwise checks leaves the process-wide cache
    empty. *)
Lemma check_operations_TypeError_clears pairs s msg s' :
  check_operations pairs s = (Raise (TypeError msg), s') →
  dicts s' !! global_mapping_cache = Some ∅.
Proof.
  revert s. induction pairs as [|[e o] pairs IH]; intros s; simpl; [done|].
  destruct (check_operation e o) as [[]|[]]; unfold mbind, mraise, dict_clear;
    simpl; try done; try apply IH.
  intros [= <- <-]. simpl. apply lookup_insert_eq.
Qed.

(** When the pairwise checks raise [TypeError], the block finalizer raises it
    with the process-wide cache emptied. *)
Lemma finalize_transactions_pairwise_mismatch
    ext fs ct rest reasons s exp ops reason s1 msg s2 :
  finalize_transaction ext fs ct s = (Return (exp, ops, reason), s1) →
  length exp = length ops →
  check_operations (zip exp ops) s1 = (Raise (TypeError msg), s2) →
  finalize_transactions ext fs (ct :: rest) reasons s = (Raise (TypeError msg), s2)
  ∧ dicts s2 !! global_mapping_cache = Some ∅.
Proof.
  intros Htx Hlen Hcheck. simpl. rewrite (mbind_Return _ _ _ _ _ Htx).
  rewrite bool_decide_eq_false_2 by (intros H; by apply H).
  rewrite (mbind_Raise _ _ _ _ _ Hcheck). split; [done|].
  by eapply check_operations_TypeError_clears.
Qed.

(** When the two lists differ in length, the block finalizer raises with the
    store exactly as the transaction finalizer left it: nothing clears the
    cache on this path. *)
Lemma finalize_transactions_length_mismatch
    ext fs ct rest reasons s exp ops reason s1 :
  finalize_transaction ext fs ct s = (Return (exp, ops, reason), s1) →
  length exp ≠ length ops →
  finalize_transactions ext fs (ct :: rest) reasons s
  = (Raise (TypeError "invalid finalize operation length"), s1).
Proof.
  intros Htx Hlen. simpl. rewrite (mbind_Return _ _ _ _ _ Htx).
  by rewrite bool_decide_eq_true_2 by done.
Qed.

(** C1, at a block whose only transaction yields one operation where none is
    expected: the block finalizer raises the length fault, and the
    process-wide cache still holds the entry written while the fee was
    finalized, whereas the same deploy recorded with a wrong value identifier
    raises with the cache cleared. *)
Theorem finalize_block_length_mismatch_keeps_cache :
  finalize_block (ex_ext ex_programs) (mkBlock 1 [ex_deploy_a_short]) ex_store
  = (Raise (TypeError "invalid finalize operation length"),
     mkStore ex_dicts_after_fee [])
  ∧ ex_dicts_after_fee !! global_mapping_cache = Some ex_fee_entry
  ∧ ex_fee_entry ≠ ∅
  ∧ finalize_block (ex_ext ex_programs) (mkBlock 1 [ex_deploy_a_wrong_value]) ex_store
    = (Raise (TypeError "invalid finalize update key operation"),
       mkStore (<[global_mapping_cache := ∅]> ex_dicts_after_fee) []).
Proof.
  repeat split; try (vm_compute; reflexivity).
  intros H. vm_compute in H. discriminate H.
Qed.

(** ** Executions whose traced finalize order fails *)

Lemma mbind_mret {A B} (a : A) (k : A → M B) s : mbind (mret a) k s = k a s.
Proof. done. Qed.

Lemma mbind_lift {A B} (r : Result A) (k : A → M B) s a :
  r = Return a → mbind (lift r) k s = k a s.
Proof. by intros ->. Qed.

Lemma transition_index_Some transitions t index :
  transition_index transitions t = Some index →
  ∃ ts, transitions !! index = Some ts ∧ tr_id ts = t
        ∧ ∀ j ts', (j < index)%nat → transitions !! j = Some ts' → tr_id ts' ≠ t.
Proof.
  revert index. induction transitions as [|ts transitions IH]; intros index; simpl; [done|].
  case_bool_decide as Hid.
  - intros [= <-]. exists ts. repeat split; [done|]. intros j ts' Hj. lia.
  - destruct (transition_index transitions t) as [i|]; simpl; [|done].
    intros [= <-]. destruct (IH i eq_refl) as (ts0 & Hl & Ht & Hfirst).
    exists ts0. repeat split; [done..|].
    intros [|j] ts' Hj; simpl.
    + by intros [= <-].
    + apply Hfirst. lia.
Qed.

Lemma py_index_Return_length {A} (l : list A) i x :
  py_index l i = Return x → length l ≠ 0%nat.
Proof. destruct l; [by rewrite py_index_nil | done]. Qed.

(** C5 (as amended): when the traced execution of a rejected execute fails
    with an execution error of one of its transitions, [finalize_execute]
    returns no operation of that execution: the list is empty when the fee is
    not public and holds exactly the operations of the public fee otherwise;
    the rejection reason names the error, the position of the first
    transition with the failing id, and the failing instruction. *)
Theorem finalize_execute_rejected_primary_error
    (ext : External) (finalize_state : FinalizeState) (execution : Execution)
    (fee : Fee) (finalize : list FinalizeOperation) (mapping_cache : nat)
    (s s1 : Store) (transition : Transition) (future : Future) (program : Program)
    (async_order : list TransitionID) (e : ExecuteError) (index : nat)
    (Hlast : py_index (transitions execution) (-1) = Return transition)
    (Hout : py_index (tr_outputs transition) (-1)
            = Return (FutureTransitionOutput (Some future)))
    (Hprog : get_program ext (future_program_id future) = Some program)
    (Horder : build_async_order ext (map tr_id (transitions execution)) program
                (future_function_name future) = Return async_order)
    (Hexec : execute_finalizer ext finalize_state async_order ∅ program
               (future_function_name future)
               (load_input_from_arguments (future_arguments future))
               mapping_cache (fresh (dom (dicts s))) false (new_dict s).2
             = (Raise (ExecuteError_ e), s1))
    (Hindex : transition_index (transitions execution) (e_transition_id e) = Some index) :
  (∃ ts, transitions execution !! index = Some ts ∧ tr_id ts = e_transition_id e)
  ∧ (tr_function_name (fee_transition fee) ≠ "fee_public" →
     finalize_execute ext finalize_state
       (RejectedExecute (FeeTransaction fee) (RejectedExecution execution) finalize)
       mapping_cache s
     = (Return (finalize, [],
                Some ("execute error: " +:+ e_message e +:+ ", at transition #"
                      +:+ pretty index +:+ ", instruction " +:+ double_quote
                      +:+ e_instruction e +:+ double_quote)), s1))
  ∧ (tr_function_name (fee_transition fee) = "fee_public" →
     ∀ fee_operations s2,
       _execute_public_fee ext finalize_state (fee_transition fee) mapping_cache
         (fresh (dom (dicts s))) true s1 = (Return fee_operations, s2) →
       finalize_execute ext finalize_state
         (RejectedExecute (FeeTransaction fee) (RejectedExecution execution) finalize)
         mapping_cache s
       = (Return (finalize, fee_operations,
                  Some ("execute error: " +:+ e_message e +:+ ", at transition #"
                        +:+ pretty index +:+ ", instruction " +:+ double_quote
                        +:+ e_instruction e +:+ double_quote)), s2)).
Proof.
  split.
  { apply transition_index_Some in Hindex as (ts & ? & ? & _). by exists ts. }
  assert (finalize_execute ext finalize_state
       (RejectedExecute (FeeTransaction fee) (RejectedExecution execution) finalize)
       mapping_cache s
     = (do! operations :=
          if bool_decide (tr_function_name (fee_transition fee) = "fee_public") then
            do! ops := _execute_public_fee ext finalize_state (fee_transition fee)
                         mapping_cache (fresh (dom (dicts s))) true in
            mret ([] ++ ops)
          else mret [] in
        mret (finalize, operations, Some (execute_reject_reason e index))) s1) as Hrun.
  { unfold finalize_execute. simpl ct_finalize.
    rewrite mbind_assoc. unfold mbind at 1. unfold new_dict at 1.
    cbv beta iota.
    rewrite mbind_mret. cbv beta iota.
    rewrite (mbind_lift _ _ _ _ Hlast).
    rewrite (bool_decide_eq_true_2 _ (py_index_Return_length _ _ _ Hout)).
    rewrite mbind_assoc, (mbind_lift _ _ _ _ Hout). cbv beta iota. rewrite Hprog.
    rewrite mbind_assoc, (mbind_lift _ _ _ _ Horder).
    erewrite mbind_Return; cycle 1.
    { unfold try_except_ExecuteError. simpl in Hexec.
      rewrite (mbind_Raise _ _ _ _ _ Hexec). rewrite Hindex. reflexivity. }
    cbv beta iota. rewrite mbind_mret. cbv beta iota. reflexivity. }
  rewrite Hrun. clear Hrun. split.
  - intros Hfee. by rewrite bool_decide_eq_false_2 by done.
  - intros Hfee fee_operations s2 Hfeeops.
    rewrite bool_decide_eq_true_2 by done.
    rewrite mbind_assoc, (mbind_Return _ _ _ _ _ Hfeeops). done.
Qed.

Lemma finalize_execute_rejected_primary_error_witness :
  finalize_execute (ex_ext ex_programs) ex_finalize_state ex_rejected_execute
    global_mapping_cache ex_store
  = (Return ([UpdateKeyValue 7 1 2], [ex_fee_operation],
             Some ("execute error: " +:+ "overflow" +:+ ", at transition #"
                   +:+ pretty 1%nat +:+ ", instruction " +:+ double_quote
                   +:+ "add r0 r1 into r2" +:+ double_quote)),
     mkStore ex_dicts_after_fee []).
Proof.
  apply (proj2 (proj2 (finalize_execute_rejected_primary_error (ex_ext ex_programs)
           ex_finalize_state ex_execution ex_fee_public [UpdateKeyValue 7 1 2]
           global_mapping_cache ex_store (new_dict ex_store).2
           (mkTransition 30 "p.aleo" "main" [ex_future "p.aleo" "main"])
           (mkFuture "p.aleo" "main" []) ex_prog_p [30; 20; 10] ex_error 1%nat
           ltac:(reflexivity) ltac:(reflexivity) ltac:(reflexivity)
           ltac:(vm_compute; reflexivity) ltac:(vm_compute; reflexivity)
           ltac:(reflexivity)))
           ltac:(reflexivity) [ex_fee_operation] (mkStore ex_dicts_after_fee [])
           ltac:(vm_compute; reflexivity)).
Defined.

(** A rejected execute with a public fee whose traced execution fails:
    the operation list that is returned holds the fee operation. *)
Lemma finalize_execute_rejected_returns_fee_operations :
  finalize_execute (ex_ext ex_programs) ex_finalize_state ex_rejected_execute
    global_mapping_cache ex_store
  = (Return ([UpdateKeyValue 7 1 2], [ex_fee_operation],
             Some (execute_reject_reason ex_error 1)),
     mkStore ex_dicts_after_fee [])
  ∧ [ex_fee_operation] ≠ [].
Proof. split; [vm_compute; reflexivity | discriminate]. Qed.

(** C6 (as amended): when the traced execution of an accepted execute fails
    with an execution error of one of its transitions, [finalize_execute]
    keeps none of its operations, and returns normally: with a rejection
    reason naming the error, the transition index and the instruction, and
    with the operations of the public fee, if there is one, as the only
    operations. *)
Theorem finalize_execute_accepted_primary_error
    (ext : External) (finalize_state : FinalizeState) (execution : Execution)
    (fee : option Fee) (finalize : list FinalizeOperation) (mapping_cache : nat)
    (s s1 : Store) (transition : Transition) (future : Future) (program : Program)
    (async_order : list TransitionID) (e : ExecuteError) (index : nat)
    (Hlast : py_index (transitions execution) (-1) = Return transition)
    (Hout : py_index (tr_outputs transition) (-1)
            = Return (FutureTransitionOutput (Some future)))
    (Hprog : get_program ext (future_program_id future) = Some program)
    (Horder : build_async_order ext (map tr_id (transitions execution)) program
                (future_function_name future) = Return async_order)
    (Hexec : execute_finalizer ext finalize_state async_order ∅ program
               (future_function_name future)
               (load_input_from_arguments (future_arguments future))
               mapping_cache mapping_cache true s
             = (Raise (ExecuteError_ e), s1))
    (Hindex : transition_index (transitions execution) (e_transition_id e) = Some index) :
  ((∀ fee', fee = Some fee' → tr_function_name (fee_transition fee') ≠ "fee_public") →
   finalize_execute ext finalize_state
     (AcceptedExecute (ExecuteTransaction execution fee) finalize) mapping_cache s
   = (Return (finalize, [],
              Some ("execute error: " +:+ e_message e +:+ ", at transition #"
                    +:+ pretty index +:+ ", instruction " +:+ double_quote
                    +:+ e_instruction e +:+ double_quote)), s1))
  ∧ (∀ fee' fee_operations s2,
       fee = Some fee' →
       tr_function_name (fee_transition fee') = "fee_public" →
       _execute_public_fee ext finalize_state (fee_transition fee') mapping_cache
         mapping_cache true s1 = (Return fee_operations, s2) →
       finalize_execute ext finalize_state
         (AcceptedExecute (ExecuteTransaction execution fee) finalize) mapping_cache s
       = (Return (finalize, fee_operations,
                  Some ("execute error: " +:+ e_message e +:+ ", at transition #"
                        +:+ pretty index +:+ ", instruction " +:+ double_quote
                        +:+ e_instruction e +:+ double_quote)), s2)).
Proof.
  assert (finalize_execute ext finalize_state
       (AcceptedExecute (ExecuteTransaction execution fee) finalize) mapping_cache s
     = (do! operations :=
          match fee with
          | Some fee' =>
              if bool_decide (tr_function_name (fee_transition fee') = "fee_public") then
                do! ops := _execute_public_fee ext finalize_state (fee_transition fee')
                             mapping_cache mapping_cache true in
                mret ([] ++ ops)
              else mret []
          | None => mret []
          end in
        mret (finalize, operations, Some (execute_reject_reason e index))) s1) as Hrun.
  { unfold finalize_execute. simpl ct_finalize.
    rewrite mbind_mret. cbv beta iota.
    rewrite (mbind_lift _ _ _ _ Hlast).
    rewrite (bool_decide_eq_true_2 _ (py_index_Return_length _ _ _ Hout)).
    rewrite mbind_assoc, (mbind_lift _ _ _ _ Hout). cbv beta iota. rewrite Hprog.
    rewrite mbind_assoc, (mbind_lift _ _ _ _ Horder).
    erewrite mbind_Return; cycle 1.
    { unfold try_except_ExecuteError.
      rewrite (mbind_Raise _ _ _ _ _ Hexec). rewrite Hindex. reflexivity. }
    cbv beta iota. rewrite mbind_mret. cbv beta iota. reflexivity. }
  rewrite Hrun. clear Hrun. split.
  - intros Hfee. destruct fee as [fee'|]; [|done].
    by rewrite bool_decide_eq_false_2 by (by apply Hfee).
  - intros fee' fee_operations s2 -> Hfee Hfeeops.
    rewrite bool_decide_eq_true_2 by done.
    rewrite mbind_assoc, (mbind_Return _ _ _ _ _ Hfeeops). done.
Qed.

Lemma finalize_execute_accepted_primary_error_witness :
  finalize_execute (ex_ext ex_programs) ex_finalize_state ex_accepted_execute
    global_mapping_cache ex_store
  = (Return ([UpdateKeyValue 7 1 2], [],
             Some ("execute error: " +:+ "overflow" +:+ ", at transition #"
                   +:+ pretty 1%nat +:+ ", instruction " +:+ double_quote
                   +:+ "add r0 r1 into r2" +:+ double_quote)),
     ex_store).
Proof.
  apply (proj1 (finalize_execute_accepted_primary_error (ex_ext ex_programs)
           ex_finalize_state ex_execution None [UpdateKeyValue 7 1 2]
           global_mapping_cache ex_store ex_store
           (mkTransition 30 "p.aleo" "main" [ex_future "p.aleo" "main"])
           (mkFuture "p.aleo" "main" []) ex_prog_p [30; 20; 10] ex_error 1%nat
           ltac:(reflexivity) ltac:(reflexivity) ltac:(reflexivity)
           ltac:(vm_compute; reflexivity) ltac:(vm_compute; reflexivity)
           ltac:(reflexivity))).
  intros fee' H. discriminate H.
Defined.

(** An accepted execute whose traced execution fails: [finalize_execute]
    returns, with a rejection reason, instead of raising. *)
Lemma finalize_execute_accepted_returns_reason :
  finalize_execute (ex_ext ex_programs) ex_finalize_state ex_accepted_execute
    global_mapping_cache ex_store
  = (Return ([UpdateKeyValue 7 1 2], [], Some (execute_reject_reason ex_error 1)),
     ex_store)
  ∧ (execute_finalizer (ex_ext ex_programs) ex_finalize_state [30; 20; 10] ∅ ex_prog_p
       "main" [] global_mapping_cache global_mapping_cache true ex_store).1
    = Raise (ExecuteError_ ex_error).
Proof. split; vm_compute; reflexivity. Qed.

(** ** The call-graph tracer *)

Lemma py_index_elem_of {A} (l : list A) i x : py_index l i = Return x → x ∈ l.
Proof.
  unfold py_index. destruct (_ || _); [done|].
  destruct (l !! _) eqn:H; [|done]. intros [= <-].
  by eapply list_elem_of_lookup_2.
Qed.

Lemma py_index_map {A B} (g : A → B) (l : list A) i :
  py_index (map g l) i = let! x := py_index l i in Return (g x).
Proof.
  unfold py_index. rewrite length_map.
  destruct (_ || _); [done|].
  change (map g l) with (g <$> l). rewrite list_lookup_fmap.
  by destruct (l !! _).
Qed.

Section DepthFirst.
Context (ext : External) (transition_ids : list TransitionID).

Local Abbreviation depth_first := (depth_first ext transition_ids).
Local Abbreviation depth_first_awaits := (depth_first_awaits ext transition_ids).
Local Abbreviation sound := (sound ext transition_ids).
Local Abbreviation faithful := (faithful ext transition_ids).
Local Abbreviation carries_id := (carries_id transition_ids).

Lemma add_transition_ids_forget {T} (calls : list (CallGraphNode * T)) :
  add_transition_ids transition_ids (map forget calls)
  = let! calls' := add_transition_ids transition_ids calls in Return (map forget calls').
Proof.
  induction calls as [|[c x] calls IH]; simpl; [done|].
  destruct (py_index transition_ids (node_index c)); simpl; [done|].
  rewrite IH. by destruct (add_transition_ids transition_ids calls).
Qed.

Lemma async_operands_forget {T} (frm : gmap Z (CallGraphNode * T)) i operands fin :
  async_operands (forget <$> frm) i operands (forget <$> fin)
  = forget <$> async_operands frm i operands fin.
Proof.
  revert i fin. induction operands as [|operand operands IH]; intros i fin; simpl; [done|].
  destruct operand as [[l|l]|]; try apply IH.
  rewrite lookup_fmap. destruct (frm !! l) as [c|]; simpl; [|apply IH].
  rewrite <- fmap_insert. apply IH.
Qed.

Lemma trace_instructions_forget {T} (calls : list (CallGraphNode * T)) insts i frm fin :
  trace_instructions ext (map forget calls) insts i (forget <$> frm) (forget <$> fin)
  = let! m := trace_instructions ext calls insts i frm fin in Return (forget <$> m).
Proof.
  revert i frm fin. induction insts as [|inst insts IH]; intros i frm fin; simpl; [done|].
  destruct inst as [[id resource|]destinations|operands|]; try apply IH.
  - destruct (get_program ext id) as [called_program|]; [|done].
    destruct (py_item _ resource) as [|called_function]; simpl; [done|].
    destruct (fn_finalize called_function); [|apply IH].
    destruct (py_index destinations (-1)) as [|dest]; simpl; [done|].
    rewrite py_index_map.
    destruct (py_index calls i) as [|callee]; simpl; [done|].
    case_bool_decide; [done|].
    rewrite <- fmap_insert. apply IH.
  - rewrite async_operands_forget. apply IH.
Qed.

Lemma depth_first_same_calls p f n n' sub :
  node_calls n = node_calls n' → depth_first p f n sub → depth_first p f n' sub.
Proof.
  intros Hcalls H. destruct H.
  - eapply depth_first_no_finalize; [rewrite <- Hcalls|..]; done.
  - eapply depth_first_finalize; [rewrite <- Hcalls|..]; done.
Qed.

Lemma add_transition_ids_sound (calls calls' : list Callee) :
  Forall (fun c => sound c.1 c.2) calls →
  add_transition_ids transition_ids calls = Return calls' →
  Forall (fun c => sound c.1 c.2) calls'.
Proof.
  revert calls'. induction calls as [|[c tr] calls IH]; intros calls' Hall; simpl.
  - intros [= <-]. constructor.
  - apply Forall_cons in Hall as [Hc Hall].
    destruct (py_index transition_ids (node_index c)) as [|t]; simpl; [done|].
    destruct (add_transition_ids transition_ids calls) as [|rest]; simpl; [done|].
    intros [= <-]. constructor; [|by apply IH].
    simpl in *. intros p f order order' Htr.
    destruct (Hc p f order order' Htr) as (sub & -> & Hdf).
    exists sub. split; [done|].
    eapply depth_first_same_calls; [|done]. by destruct c.
Qed.

Lemma async_operands_Forall {T} (Q : CallGraphNode * T → Prop)
    (frm : gmap Z (CallGraphNode * T)) i operands fin :
  map_Forall (fun _ => Q) frm →
  map_Forall (fun _ => Q) fin →
  map_Forall (fun _ => Q) (async_operands frm i operands fin).
Proof.
  intros Hfrm. revert i fin.
  induction operands as [|operand operands IH]; intros i fin Hfin; simpl; [done|].
  apply IH. destruct operand as [[l|l]|]; try done.
  destruct (frm !! l) as [c|] eqn:Hl; [|done].
  apply map_Forall_insert_2; [|done]. by apply (Hfrm l).
Qed.

Lemma trace_instructions_Forall {T} (Q : CallGraphNode * T → Prop)
    (calls : list (CallGraphNode * T)) insts i frm fin m :
  Forall Q calls →
  map_Forall (fun _ => Q) frm →
  map_Forall (fun _ => Q) fin →
  trace_instructions ext calls insts i frm fin = Return m →
  map_Forall (fun _ => Q) m.
Proof.
  intros Hcalls. revert i frm fin.
  induction insts as [|inst insts IH]; intros i frm fin Hfrm Hfin; simpl.
  - by intros [= <-].
  - destruct inst as [[id resource|]destinations|operands|]; try by apply IH.
    + destruct (get_program ext id) as [called_program|]; [|done].
      destruct (py_item _ resource) as [|called_function]; simpl; [done|].
      destruct (fn_finalize called_function); [|by apply IH].
      destruct (py_index destinations (-1)) as [|dest]; simpl; [done|].
      destruct (py_index calls i) as [|callee] eqn:Hcallee; simpl; [done|].
      case_bool_decide; [done|].
      apply IH; [|done]. apply map_Forall_insert_2; [|done].
      apply py_index_elem_of in Hcallee.
      by apply (proj1 (Forall_forall _ _) Hcalls).
    + apply IH; [done|]. by apply async_operands_Forall.
Qed.

Lemma add_transition_ids_carries_id {T} (calls calls' : list (CallGraphNode * T)) :
  add_transition_ids transition_ids calls = Return calls' →
  Forall (fun c => carries_id c.1) calls'.
Proof.
  revert calls'. induction calls as [|[c x] calls IH]; intros calls'; simpl.
  - intros [= <-]. constructor.
  - destruct (py_index transition_ids (node_index c)) as [|t] eqn:Ht; simpl; [done|].
    destruct (add_transition_ids transition_ids calls) as [|rest]; simpl; [done|].
    intros [= <-]. constructor; [|by apply IH].
    exists t. by destruct c.
Qed.

Lemma trace_commands_sound (fin : gmap Z Callee) commands order order' :
  map_Forall (fun _ c => sound c.1 c.2 ∧ carries_id c.1) fin →
  trace_commands ext fin commands order = Return order' →
  ∃ sub, order' = order ++ sub ∧ depth_first_awaits (forget <$> fin) commands sub.
Proof.
  intros Hfin. revert order.
  induction commands as [|[register|] commands IH]; intros order; simpl.
  - intros [= <-]. exists []. split; [by rewrite app_nil_r | constructor].
  - destruct (fin !! _) as [[child tracer]|] eqn:Hreg; [|done].
    destruct (node_transition_id child) as [t|] eqn:Ht; simpl; [|done].
    destruct (split_name (node_name child)) as [|[p f]] eqn:Hname; simpl; [done|].
    destruct (get_program ext p) as [called_program|] eqn:Hprog; [|done].
    case_bool_decide; [done|].
    destruct (tracer called_program f (order ++ [t])) as [|order1] eqn:Htr; simpl; [done|].
    intros Hrest.
    destruct (Hfin _ _ Hreg) as [Hsound (t' & Ht' & Hid)]. simpl in *.
    assert (t' = t) as -> by congruence.
    destruct (Hsound _ _ _ _ Htr) as (sub_child & -> & Hchild).
    destruct (IH _ Hrest) as (sub_rest & -> & Hawaits).
    exists (t :: sub_child ++ sub_rest). split.
    + by rewrite <- !app_assoc.
    + eapply depth_first_await; try done.
      rewrite lookup_fmap, Hreg. done.
  - intros Hrest. destruct (IH _ Hrest) as (sub & -> & Hawaits).
    exists sub. split; [done | by constructor].
Qed.

Lemma _trace_execution_sound node :
  sound node (fun p f o => _trace_execution ext transition_ids p f node o).
Proof.
  induction node as [i nm t calls IH] using CallGraphNode_forall_ind.
  intros program function_name order order'. simpl.
  destruct (add_transition_ids transition_ids _) as [|callees] eqn:Hcallees; simpl; [done|].
  destruct (py_item (functions program) function_name) as [|function] eqn:Hfn;
    simpl; [done|].
  apply py_item_Return in Hfn.
  pose proof (add_transition_ids_forget
                (map (fun c => (c, fun p f o => _trace_execution ext transition_ids p f c o))
                   calls)) as Hforget.
  rewrite Hcallees, map_map in Hforget. simpl in Hforget.
  destruct (fn_finalize function) as [commands|] eqn:Hfinalize.
  - destruct (trace_instructions ext callees _ 0 ∅ ∅) as [|fin] eqn:Hfin; simpl; [done|].
    intros Hcommands.
    assert (map_Forall (fun _ (c : Callee) => sound c.1 c.2 ∧ carries_id c.1) fin)
      as Hsound.
    { eapply (trace_instructions_Forall (fun c => sound c.1 c.2 ∧ carries_id c.1));
        [| | |exact Hfin]; try done.
      apply Forall_and. split.
      - eapply add_transition_ids_sound; [|exact Hcallees].
        apply Forall_map. done.
      - by eapply add_transition_ids_carries_id. }
    destruct (trace_commands_sound _ _ _ _ Hsound Hcommands) as (sub & -> & Hawaits).
    exists sub. split; [done|].
    eapply depth_first_finalize; try done.
    pose proof (trace_instructions_forget callees (fn_instructions function) 0 ∅ ∅) as H.
    rewrite !fmap_empty, Hfin in H. exact H.
  - intros [= <-]. exists []. split; [by rewrite app_nil_r|].
    by eapply depth_first_no_finalize.
Qed.


Lemma add_transition_ids_faithful (calls calls' : list Callee) :
  Forall faithful calls →
  add_transition_ids transition_ids calls = Return calls' →
  Forall faithful calls'.
Proof.
  revert calls'. induction calls as [|[c tr] calls IH]; intros calls' Hall; simpl.
  - intros [= <-]. constructor.
  - apply Forall_cons in Hall as [Hc Hall].
    destruct (py_index transition_ids (node_index c)) as [|t]; simpl; [done|].
    destruct (add_transition_ids transition_ids calls) as [|rest]; simpl; [done|].
    intros [= <-]. constructor; [|by apply IH].
    intros p f o. specialize (Hc p f o). simpl in *. rewrite Hc. by destruct c.
Qed.

Lemma callees_of_children (calls : list CallGraphNode) (g : CallGraphNode → Tracer)
    children :
  add_transition_ids transition_ids (map (fun c => (c, tt)) calls) = Return children →
  ∃ callees,
    add_transition_ids transition_ids (map (fun c => (c, g c)) calls) = Return callees
    ∧ map forget callees = children.
Proof.
  intros Hchildren.
  pose proof (add_transition_ids_forget (map (fun c => (c, g c)) calls)) as H.
  rewrite map_map in H. simpl in H. unfold forget at 1 in H. simpl in H.
  rewrite Hchildren in H.
  destruct (add_transition_ids transition_ids (map (fun c => (c, g c)) calls))
    as [|callees]; simpl in H; [done|].
  exists callees. split; [done|]. congruence.
Qed.

Lemma _trace_execution_complete program function_name node sub :
  depth_first program function_name node sub →
  is_Some (functions program !! function_name)
  ∧ ∀ order, _trace_execution ext transition_ids program function_name node order
             = Return (order ++ sub).
Proof.
  revert program function_name node sub.
  apply (depth_first_mutind ext transition_ids
           (fun program function_name node sub =>
              is_Some (functions program !! function_name)
              ∧ ∀ order,
                  _trace_execution ext transition_ids program function_name node order
                  = Return (order ++ sub))
           (fun registers commands sub =>
              ∀ (fin : gmap Z Callee) order,
                forget <$> fin = registers →
                map_Forall (fun _ => faithful) fin →
                trace_commands ext fin commands order = Return (order ++ sub))).
  - intros program function_name [i nm t calls] function children Hchildren Hfn Hfinalize.
    split; [by eexists|]. intros order. simpl in *.
    destruct (callees_of_children calls
                (fun c p f o => _trace_execution ext transition_ids p f c o)
                children Hchildren) as (callees & -> & _).
    simpl. unfold py_item. rewrite Hfn. simpl. rewrite Hfinalize.
    by rewrite app_nil_r.
  - intros program function_name [i nm t calls] function commands children registers sub
      Hchildren Hfn Hfinalize Hregisters _ IH.
    split; [by eexists|]. intros order. simpl in *.
    destruct (callees_of_children calls
                (fun c p f o => _trace_execution ext transition_ids p f c o)
                children Hchildren) as (callees & Hcallees & <-).
    rewrite Hcallees. simpl. unfold py_item. rewrite Hfn. simpl. rewrite Hfinalize.
    pose proof (trace_instructions_forget callees (fn_instructions function) 0 ∅ ∅) as H.
    rewrite !fmap_empty, Hregisters in H.
    destruct (trace_instructions ext callees (fn_instructions function) 0 ∅ ∅)
      as [|fin] eqn:Hfin; simpl in H; [done|].
    simpl. apply IH; [congruence|].
    eapply (trace_instructions_Forall faithful); [| | |exact Hfin]; try done.
    eapply add_transition_ids_faithful; [|exact Hcallees].
    apply Forall_map. by apply Forall_true.
  - intros registers fin order _ _. simpl. by rewrite app_nil_r.
  - intros registers rest sub _ IH fin order Hfin Hfaithful. simpl. by apply IH.
  - intros registers register rest child t p f called_program sub_child sub_rest
      Hreg Ht _ Hname Hprog _ [Hfn IHchild] _ IHrest fin order Hfin Hfaithful.
    simpl. subst registers. rewrite lookup_fmap in Hreg.
    destruct (fin !! _) as [[n tracer]|] eqn:Hlookup; [|done].
    injection Hreg as ->. rewrite Ht. simpl. rewrite Hname. simpl. rewrite Hprog.
    rewrite bool_decide_eq_false_2 by (by destruct Hfn as [? ->]).
    rewrite (Hfaithful _ _ Hlookup). simpl. rewrite IHchild. simpl.
    rewrite IHrest by done. by rewrite <- !app_assoc.
Qed.

(** The tracer returns exactly the depth-first orders, after the order it
    was given. *)
Lemma _trace_execution_depth_first program function_name node order order' :
  _trace_execution ext transition_ids program function_name node order = Return order'
  ↔ ∃ sub, order' = order ++ sub ∧ depth_first program function_name node sub.
Proof.
  split.
  - apply (_trace_execution_sound node).
  - intros (sub & -> & Hdf). by apply _trace_execution_complete.
Qed.

End DepthFirst.

Lemma py_index_minus_one {A} (l : list A) x :
  py_index l (-1) = Return x ↔ last l = Some x.
Proof.
  destruct l as [|a l] using rev_ind.
  - rewrite py_index_nil. done.
  - rewrite py_index_last, last_snoc. split; congruence.
Qed.



(** [p.aleo/main] calls [a.aleo/fa] (transition 10) and then [b.aleo/fb]
    (transition 20), and awaits the future of [fb] first: the order follows
    the awaits. *)
Example build_async_order_follows_awaits :
  build_async_order (ex_ext ex_programs) [10; 20; 30] ex_prog_p "main"
  = Return [30; 20; 10].
Proof. vm_compute. reflexivity. Qed.

(** Without transition ids there is no order. *)
Lemma build_async_order_nil ext program function_name :
  ∃ e, build_async_order ext [] program function_name = Raise e.
Proof.
  unfold build_async_order.
  destruct (call_graph ext program function_name) as [e|graph]; cbn [rbind]; [eauto|].
  rewrite py_index_nil. cbn [rbind]. eauto.
Qed.

(** ** The operation applier *)

Lemma mbind_inv_Return {A B} (m : M A) (k : A → M B) s b s' :
  mbind m k s = (Return b, s') →
  ∃ a s1, m s = (Return a, s1) ∧ k a s1 = (Return b, s').
Proof.
  unfold mbind. destruct (m s) as [[e|a] s1]; [done|]. intros H. by exists a, s1.
Qed.

Lemma mbind_inv_Raise {A B} (m : M A) (k : A → M B) s e s' :
  mbind m k s = (Raise e, s') →
  m s = (Raise e, s') ∨ ∃ a s1, m s = (Return a, s1) ∧ k a s1 = (Raise e, s').
Proof.
  unfold mbind. destruct (m s) as [[e1|a] s1].
  - intros [= <- <-]. by left.
  - intros H. right. by exists a, s1.
Qed.

(** One operation either sends one call to the database or raises with the
    store untouched; the exception is a missing key of the dictionary, a
    failure of [dump], or [NotImplementedError] when the kind is not one of
    the three the applier knows. *)
Lemma execute_operation_outcome ext o s r s' :
  execute_operation ext o s = (r, s') →
  (∃ c, r = Return tt ∧ s' = mkStore (dicts s) (db s ++ [c]))
  ∨ (∃ e, r = Raise e ∧ s' = s
          ∧ ((∃ k, e = KeyError k) ∨ (∃ v, py_dump ext v = Raise e)
             ∨ (e = NotImplementedError ""
                ∧ o !! "type" ≠ Some (VType TInitializeMapping)
                ∧ o !! "type" ≠ Some (VType TUpdateKeyValue)
                ∧ o !! "type" ≠ Some (VType TRemoveKeyValue)))).
Proof.
  unfold execute_operation, py_item.
  destruct (o !! "type") as [[[]| | | | |]|] eqn:Hty;
    unfold mbind, lift, mraise, db_call; simpl;
    repeat match goal with
      | |- context [o !! ?k] => destruct (o !! k); simpl
      | |- context [py_dump ext ?v] => destruct (py_dump ext v) eqn:?; simpl
      end;
    intros [= <- <-]; eauto 10.
Qed.

Lemma execute_operations_calls ext ops s r s' :
  execute_operations ext ops s = (r, s') →
  ∃ calls, db s' = db s ++ calls
           ∧ match r with
             | Return _ => length calls = length ops
             | Raise _ => (length calls < length ops)%nat
             end.
Proof.
  revert s. induction ops as [|o ops IH]; intros s; simpl.
  - intros [= <- <-]. exists []. by rewrite app_nil_r.
  - unfold mbind at 1.
    destruct (execute_operation ext o s) as [r1 s1] eqn:Ho.
    apply execute_operation_outcome in Ho as [(c & -> & ->)|(e & -> & -> & _)].
    + intros Hrest. apply IH in Hrest as (calls & Hdb & Hlen). simpl in Hdb.
      exists (c :: calls). split; [by rewrite Hdb, <- app_assoc|].
      destruct r; simpl; lia.
    + intros [= <- <-]. exists []. rewrite app_nil_r. split; [done|]. simpl. lia.
Qed.

(** X1: applying a concatenation is applying the first list and then, if
    nothing was raised, the second. *)
Theorem execute_operations_app (ext : External) (ops1 ops2 : list Operation) (s : Store) :
  execute_operations ext (ops1 ++ ops2) s
  = (do! _ := execute_operations ext ops1 in execute_operations ext ops2) s.
Proof.
  revert s. induction ops1 as [|o ops1 IH]; intros s; [done|].
  simpl. rewrite mbind_assoc. apply mbind_ext. intros [] s1. apply IH.
Qed.

(** X2: the applier never touches the caches and only appends to the
    database: one call per operation when it returns, and when it raises the
    calls of the operations before the failing one stay. *)
Theorem execute_operations_appends
    (ext : External) (ops : list Operation) (s s' : Store) (r : Result unit)
    (Hrun : execute_operations ext ops s = (r, s')) :
  dicts s' = dicts s
  ∧ ∃ calls, db s' = db s ++ calls
             ∧ match r with
               | Return _ => length calls = length ops
               | Raise _ => (length calls < length ops)%nat
               end.
Proof.
  revert s Hrun. induction ops as [|o ops IH]; intros s; simpl.
  - intros [= <- <-]. split; [done|]. exists []. by rewrite app_nil_r.
  - unfold mbind at 1.
    destruct (execute_operation ext o s) as [r1 s1] eqn:Ho.
    apply execute_operation_outcome in Ho as [(c & -> & ->)|(e & -> & -> & _)].
    + intros Hrest. destruct (IH _ Hrest) as (Hd & calls & Hdb & Hlen).
      simpl in *. split; [done|]. exists (c :: calls).
      split; [by rewrite Hdb, <- app_assoc|].
      destruct r; simpl; lia.
    + intros [= <- <-]. split; [done|]. exists []. rewrite app_nil_r.
      split; [done|]. simpl. lia.
Qed.

Lemma execute_operations_appends_witness :
  dicts (execute_operations (ex_ext ex_programs)
           [ex_fee_operation; ex_initialize_operation] ex_store).2 = dicts ex_store
  ∧ ∃ calls,
      db (execute_operations (ex_ext ex_programs)
            [ex_fee_operation; ex_initialize_operation] ex_store).2
      = db ex_store ++ calls
      ∧ (length calls < length [ex_fee_operation; ex_initialize_operation])%nat.
Proof.
  apply (execute_operations_appends (ex_ext ex_programs)
           [ex_fee_operation; ex_initialize_operation] ex_store
           (execute_operations (ex_ext ex_programs)
              [ex_fee_operation; ex_initialize_operation] ex_store).2
           (Raise (KeyError "program_id"))).
  vm_compute. reflexivity.
Defined.

(** X3: operations that passed the pairwise checks are of a kind the applier
    knows: if applying them raises, the exception is a key missing from one
    of the dictionaries or comes from [dump], never the applier's
    [NotImplementedError]. *)
Theorem execute_operations_after_validation
    (ext : External) (expected : list FinalizeOperation) (ops : list Operation)
    (s s' : Store) (e : Exn)
    (Hvalid : Forall2 operation_matches expected ops)
    (Hrun : execute_operations ext ops s = (Raise e, s')) :
  (∃ k, e = KeyError k) ∨ (∃ v, py_dump ext v = Raise e).
Proof.
  revert s Hrun. induction Hvalid as [|x o expected ops Hm Hvalid IH]; intros s; simpl.
  - done.
  - unfold mbind at 1.
    destruct (execute_operation ext o s) as [r1 s1] eqn:Ho.
    apply execute_operation_outcome in Ho
      as [(c & -> & ->)|(e1 & -> & -> & [Hk|[Hd|(_ & H1 & H2 & H3)]])].
    + apply IH.
    + intros [= <- <-]. by left.
    + intros [= <- <-]. by right.
    + exfalso. destruct Hm as (Hty & _ & Hx).
      destruct x; simpl in *; done.
Qed.

Lemma execute_operations_after_validation_witness :
  (∃ k, KeyError "program_id" = KeyError k)
  ∨ (∃ v, py_dump (ex_ext ex_programs) v = Raise (KeyError "program_id")).
Proof.
  apply (execute_operations_after_validation (ex_ext ex_programs)
           [InitializeMapping 7] [ex_initialize_operation] ex_store ex_store
           (KeyError "program_id")).
  - repeat constructor.
  - vm_compute. reflexivity.
Defined.

(** X4: the operations [finalize_deploy] synthesizes always apply: one
    [initialize_mapping] call per declared mapping, in declaration order,
    with the mapping id, the program id and the mapping name as strings. *)
Theorem execute_operations_initialize_operations
    (ext : External) (program : Program) (s : Store) :
  execute_operations ext (initialize_operations ext program) s
  = (Return tt,
     mkStore (dicts s)
       (db s ++ map (fun mapping =>
                       initialize_mapping
                         (py_str ext (VField (cached_get_mapping_id ext
                                                (program_id program) mapping)))
                         (py_str ext (VStr (program_id program)))
                         (py_str ext (VStr mapping)))
                    (map fst (mappings program)))).
Proof.
  unfold initialize_operations.
  revert s. induction (map fst (mappings program)) as [|m l IH]; intros s; simpl.
  - unfold mret. rewrite app_nil_r. by destruct s.
  - unfold mbind at 1.
    assert (execute_operation ext (initialize_mapping_operation ext program m) s
            = (Return tt,
               mkStore (dicts s)
                 (db s ++ [initialize_mapping
                             (py_str ext (VField (cached_get_mapping_id ext
                                                    (program_id program) m)))
                             (py_str ext (VStr (program_id program)))
                             (py_str ext (VStr m))])))
      as ->.
    { unfold execute_operation, initialize_mapping_operation, py_item.
      unfold mbind, lift. simpl. done. }
    rewrite IH. simpl. by rewrite <- app_assoc.
Qed.

(** ** What the transaction finalizers return *)

Lemma try_except_inv_Return {A} (m : M A) h s a s' :
  try_except_ExecuteError m h s = (Return a, s') →
  m s = (Return a, s') ∨ ∃ e s1, m s = (Raise (ExecuteError_ e), s1) ∧ h e s1 = (Return a, s').
Proof.
  unfold try_except_ExecuteError.
  destruct (m s) as [[e|a1] s1]; [|by left].
  destruct e; try done. intros H. right. by eexists _, _.
Qed.

(** The expected operations are the ones the confirmed transaction carries;
    an accepted deploy has no rejection reason and a rejected deploy the
    generic one. *)
Lemma finalize_deploy_returns ext fs ct mc s exp ops reason s' :
  finalize_deploy ext fs ct mc s = (Return (exp, ops, reason), s') →
  exp = ct_finalize ct
  ∧ match ct with
    | AcceptedDeploy _ _ => reason = None
    | _ => reason = Some "(detailed reason not available)"
    end.
Proof.
  unfold finalize_deploy. intros H.
  apply mbind_inv_Return in H as (transition & s1 & _ & H).
  apply mbind_inv_Return in H as (operations & s2 & _ & H).
  destruct ct; try (injection H as <- <- <- <-; done).
  apply mbind_inv_Return in H as (deployment & s3 & _ & H).
  by injection H as <- <- <- <-.
Qed.

(** The expected operations are the ones the confirmed transaction carries,
    and a rejected execute always comes back with a rejection reason. *)
Lemma finalize_execute_returns ext fs ct mc s exp ops reason s' :
  finalize_execute ext fs ct mc s = (Return (exp, ops, reason), s') →
  exp = ct_finalize ct
  ∧ match ct with
    | RejectedExecute _ _ _ => reason ≠ None
    | _ => True
    end.
Proof.
  unfold finalize_execute. intros H.
  apply mbind_inv_Return in H as ([[[execution allow] local] fee] & s1 & _ & H).
  apply mbind_inv_Return in H as (transition & s2 & _ & H).
  apply mbind_inv_Return in H as ([operations reject_reason] & s3 & _ & H).
  apply mbind_inv_Return in H as ([operations0 reject_reason0] & s4 & Hrej & H).
  apply mbind_inv_Return in H as (operations1 & s5 & _ & H).
  injection H as <- <- <- <-. split; [done|].
  destruct ct; try done.
  destruct reject_reason as [r|].
  - by injection Hrej as <- <- <-.
  - apply mbind_inv_Return in Hrej as (fee' & s6 & _ & Hrej).
    case_bool_decide.
    + apply try_except_inv_Return in Hrej as [Hrej|(e & s7 & _ & Hrej)].
      * apply mbind_inv_Return in Hrej as (x & s7 & _ & Hrej).
        by injection Hrej as <- <- <-.
      * by injection Hrej as <- <- <-.
    + by injection Hrej as <- <- <-.
Qed.

Lemma finalize_transaction_returns ext fs ct s exp ops reason s' :
  finalize_transaction ext fs ct s = (Return (exp, ops, reason), s') →
  exp = ct_finalize ct ∧ reason_fits ct reason.
Proof.
  destruct ct; simpl; intros H;
    (apply finalize_deploy_returns in H || apply finalize_execute_returns in H);
    done.
Qed.

Lemma finalize_transactions_returns ext fs txs acc s reasons s' :
  finalize_transactions ext fs txs acc s = (Return reasons, s') →
  ∃ new, reasons = acc ++ new ∧ Forall2 reason_fits txs new.
Proof.
  revert acc s. induction txs as [|ct txs IH]; intros acc s; simpl.
  - intros [= <- <-]. exists []. by rewrite app_nil_r.
  - intros H.
    apply mbind_inv_Return in H as ([[exp ops] reason] & s1 & Htx & H).
    case_bool_decide; [done|].
    apply mbind_inv_Return in H as ([] & s2 & _ & H).
    apply mbind_inv_Return in H as ([] & s3 & _ & H).
    apply IH in H as (new & -> & Hnew).
    exists (reason :: new). split; [by rewrite <- app_assoc|].
    constructor; [|done]. by apply finalize_transaction_returns in Htx as [_ ?].
Qed.

(** X5: when the block finalizer returns, it returns one rejection reason per
    transaction, in the order of the block: none for an accepted deploy, the
    generic one for a rejected deploy, and some reason for every rejected
    execute. *)
Theorem finalize_block_reasons
    (ext : External) (block : Block) (s s' : Store) (reasons : list (option string))
    (Hrun : finalize_block ext block s = (Return reasons, s')) :
  Forall2 reason_fits (block_transactions block) reasons.
Proof.
  unfold finalize_block in Hrun.
  apply finalize_transactions_returns in Hrun as (new & -> & Hnew). done.
Qed.

Lemma finalize_block_reasons_witness :
  Forall2 reason_fits [ex_deploy_p] [None].
Proof.
  apply (finalize_block_reasons (ex_ext ex_programs) (mkBlock 1 [ex_deploy_p])
           ex_store (mkStore (dicts ex_store) ex_db_after_deploy_p) [None]).
  vm_compute. reflexivity.
Defined.

(** X6: the block finalizer sends the database exactly one call per finalize
    operation recorded in the confirmed transactions of the block when it
    returns, and never more than that when it raises; the calls are appended
    to those the database had received before. *)
Theorem finalize_block_db_calls
    (ext : External) (block : Block) (s s' : Store) (r : Result (list (option string)))
    (Hrun : finalize_block ext block s = (r, s')) :
  ∃ calls,
    db s' = db s ++ calls
    ∧ match r with
      | Return _ =>
          length calls
          = sum_list (map (fun ct => length (ct_finalize ct)) (block_transactions block))
      | Raise _ =>
          (length calls
           ≤ sum_list (map (fun ct => length (ct_finalize ct)) (block_transactions block)))%nat
      end.
Proof.
  unfold finalize_block in Hrun. revert Hrun.
  generalize (@nil (option string)) as acc. revert s.
  induction (block_transactions block) as [|ct txs IH]; intros s acc; simpl.
  - intros [= <- <-]. exists []. by rewrite app_nil_r.
  - unfold mbind at 1.
    destruct (finalize_transaction ext _ ct s) as [[e|[[exp ops] reason]] s1] eqn:Htx.
    + apply keeps_db_finalize_transaction in Htx.
      intros [= <- <-]. exists []. rewrite app_nil_r. split; [done|]. simpl. lia.
    + pose proof (keeps_db_finalize_transaction _ _ _ _ _ _ Htx) as Hdb1.
      apply finalize_transaction_returns in Htx as [-> _].
      case_bool_decide as Hlen.
      { intros [= <- <-]. exists []. rewrite app_nil_r. split; [done|]. simpl. lia. }
      unfold mbind at 1.
      destruct (check_operations (zip (ct_finalize ct) ops) s1) as [[e|[]] s2] eqn:Hcheck;
        apply check_operations_store in Hcheck as [Hdb2 _].
      { intros [= <- <-]. exists []. rewrite app_nil_r.
        split; [congruence|]. simpl. lia. }
      unfold mbind at 1.
      destruct (execute_operations ext ops s2) as [[e|[]] s3] eqn:Hops;
        apply execute_operations_calls in Hops as (calls & Hdb3 & Hcalls).
      { intros [= <- <-]. exists calls. split; [congruence|]. simpl. lia. }
      intros Hrest. apply IH in Hrest as (calls' & Hdb' & Hcalls').
      exists (calls ++ calls'). split.
      * rewrite Hdb', Hdb3, Hdb2, Hdb1. by rewrite app_assoc.
      * rewrite length_app. destruct r; lia.
Qed.

Lemma finalize_block_db_calls_witness :
  ∃ calls,
    db (mkStore (dicts ex_store) ex_db_after_deploy_p) = db ex_store ++ calls
    ∧ length calls
      = sum_list (map (fun ct => length (ct_finalize ct))
                    (block_transactions (mkBlock 1 [ex_deploy_p]))).
Proof.
  apply (finalize_block_db_calls (ex_ext ex_programs) (mkBlock 1 [ex_deploy_p])
           ex_store (mkStore (dicts ex_store) ex_db_after_deploy_p) (Return [None])).
  vm_compute. reflexivity.
Defined.

(** ** Executions without finalize scope, and rejected executions *)

(** X7: an accepted execute whose outermost transition has no output, or
    whose last output is not a future, runs no finalize scope of its own:
    the operations are those of the public fee, if there is one, and there
    is no rejection reason. *)
Theorem finalize_execute_without_future
    (ext : External) (finalize_state : FinalizeState) (execution : Execution)
    (fee : option Fee) (finalize : list FinalizeOperation) (mapping_cache : nat)
    (s : Store) (transition : Transition)
    (Hlast : py_index (transitions execution) (-1) = Return transition)
    (Hout : tr_outputs transition = []
            ∨ py_index (tr_outputs transition) (-1) = Return OtherTransitionOutput) :
  ((∀ fee', fee = Some fee' → tr_function_name (fee_transition fee') ≠ "fee_public") →
   finalize_execute ext finalize_state
     (AcceptedExecute (ExecuteTransaction execution fee) finalize) mapping_cache s
   = (Return (finalize, [], None), s))
  ∧ (∀ fee' fee_operations s2,
       fee = Some fee' →
       tr_function_name (fee_transition fee') = "fee_public" →
       _execute_public_fee ext finalize_state (fee_transition fee') mapping_cache
         mapping_cache true s = (Return fee_operations, s2) →
       finalize_execute ext finalize_state
         (AcceptedExecute (ExecuteTransaction execution fee) finalize) mapping_cache s
       = (Return (finalize, fee_operations, None), s2)).
Proof.
  assert (finalize_execute ext finalize_state
       (AcceptedExecute (ExecuteTransaction execution fee) finalize) mapping_cache s
     = (do! operations :=
          match fee with
          | Some fee' =>
              if bool_decide (tr_function_name (fee_transition fee') = "fee_public") then
                do! ops := _execute_public_fee ext finalize_state (fee_transition fee')
                             mapping_cache mapping_cache true in
                mret ([] ++ ops)
              else mret []
          | None => mret []
          end in
        mret (finalize, operations, None)) s) as Hrun.
  { unfold finalize_execute. simpl ct_finalize.
    rewrite mbind_mret. cbv beta iota.
    rewrite (mbind_lift _ _ _ _ Hlast).
    destruct Hout as [Hnil|Hother].
    - rewrite Hnil. simpl length.
      rewrite bool_decide_eq_false_2 by (intros H; by apply H).
      rewrite mbind_mret. cbv beta iota. rewrite mbind_mret. reflexivity.
    - rewrite (bool_decide_eq_true_2 _ (py_index_Return_length _ _ _ Hother)).
      rewrite mbind_assoc, (mbind_lift _ _ _ _ Hother). cbv beta iota.
      rewrite mbind_mret. cbv beta iota. rewrite mbind_mret. reflexivity. }
  rewrite Hrun. clear Hrun. split.
  - intros Hfee. destruct fee as [fee'|]; [|done].
    by rewrite bool_decide_eq_false_2 by (by apply Hfee).
  - intros fee' fee_operations s2 -> Hfee Hfeeops.
    rewrite bool_decide_eq_true_2 by done.
    rewrite mbind_assoc, (mbind_Return _ _ _ _ _ Hfeeops). done.
Qed.

Lemma finalize_execute_without_future_witness :
  finalize_execute (ex_ext ex_programs) ex_finalize_state
    (AcceptedExecute
       (ExecuteTransaction (mkExecution [mkTransition 10 "a.aleo" "fa" []]) None) [])
    global_mapping_cache ex_store
  = (Return ([], [], None), ex_store).
Proof.
  apply (proj1 (finalize_execute_without_future (ex_ext ex_programs) ex_finalize_state
                  (mkExecution [mkTransition 10 "a.aleo" "fa" []]) None []
                  global_mapping_cache ex_store (mkTransition 10 "a.aleo" "fa" [])
                  ltac:(reflexivity) ltac:(left; reflexivity))).
  intros fee' H. discriminate H.
Defined.

(** X8: a rejected execute whose fee is not [fee_public] never returns an
    operation: whenever [finalize_execute] returns, the list is empty and
    there is a rejection reason. *)
Theorem finalize_execute_rejected_private_fee
    (ext : External) (finalize_state : FinalizeState) (fee : Fee) (rejected : Rejected)
    (finalize : list FinalizeOperation) (mapping_cache : nat) (s s' : Store)
    (expected : list FinalizeOperation) (operations : list Operation)
    (reason : option string)
    (Hfee : tr_function_name (fee_transition fee) ≠ "fee_public")
    (Hrun : finalize_execute ext finalize_state
              (RejectedExecute (FeeTransaction fee) rejected finalize) mapping_cache s
            = (Return (expected, operations, reason), s')) :
  expected = finalize ∧ operations = [] ∧ reason ≠ None.
Proof.
  unfold finalize_execute in Hrun. simpl ct_finalize in Hrun.
  destruct rejected as [|execution]; [done|].
  apply mbind_inv_Return in Hrun as ([[[execution0 allow] local] fee0] & s1 & Hsetup & H).
  apply mbind_inv_Return in Hsetup as (l & s0 & _ & Hsetup).
  injection Hsetup as <- <- <- <- <-.
  apply mbind_inv_Return in H as (transition & s2 & _ & H).
  apply mbind_inv_Return in H as ([operations1 reject_reason] & s3 & Hprimary & H).
  apply mbind_inv_Return in H as ([operations0 reject_reason0] & s4 & Hrej & H).
  rewrite bool_decide_eq_false_2 in H by done.
  rewrite mbind_mret in H. injection H as <- <- <- <-.
  split; [done|].
  destruct reject_reason as [r|].
  - injection Hrej as <- <- <-. split; [|done].
    case_bool_decide; [|by injection Hprimary].
    apply mbind_inv_Return in Hprimary as (output & s5 & _ & Hprimary).
    destruct output as [[future|]|]; [| done | by injection Hprimary].
    destruct (get_program ext (future_program_id future)); [|done].
    apply mbind_inv_Return in Hprimary as (order & s6 & _ & Hprimary).
    apply try_except_inv_Return in Hprimary as [Hp|(e & s7 & _ & Hp)].
    + apply mbind_inv_Return in Hp as (x & s7 & _ & Hp). by injection Hp.
    + destruct (transition_index _ _); [|done]. by injection Hp as <- <-.
  - rewrite mbind_mret in Hrej.
    rewrite bool_decide_eq_false_2 in Hrej by done.
    by injection Hrej as <- <- <-.
Qed.

Lemma finalize_execute_rejected_private_fee_witness :
  [UpdateKeyValue 7 1 2] = [UpdateKeyValue 7 1 2]
  ∧ ([] : list Operation) = []
  ∧ Some (execute_reject_reason ex_error 1) ≠ None.
Proof.
  apply (finalize_execute_rejected_private_fee (ex_ext ex_programs) ex_finalize_state
           ex_fee_private (RejectedExecution ex_execution) [UpdateKeyValue 7 1 2]
           global_mapping_cache ex_store (new_dict ex_store).2
           [UpdateKeyValue 7 1 2] [] (Some (execute_reject_reason ex_error 1))).
  - vm_compute. discriminate.
  - vm_compute. reflexivity.
Defined.

(** ** More on the call-graph tracer *)

Section TracerFacts.
Context (ext : External) (transition_ids : list TransitionID).

Lemma depth_first_ids program function_name node sub :
  depth_first ext transition_ids program function_name node sub →
  Forall (fun t => t ∈ transition_ids) sub.
Proof.
  revert program function_name node sub.
  apply (depth_first_mutind ext transition_ids
           (fun _ _ _ sub => Forall (fun t => t ∈ transition_ids) sub)
           (fun _ _ sub => Forall (fun t => t ∈ transition_ids) sub)).
  - intros. constructor.
  - intros. done.
  - intros. constructor.
  - intros. done.
  - intros registers register rest child t p f called_program sub_child sub_rest
      _ _ Hid _ _ _ Hchild _ Hrest.
    constructor; [by eapply py_index_elem_of|]. by apply Forall_app.
Qed.

Lemma depth_first_awaits_none registers commands sub :
  depth_first_awaits ext transition_ids registers commands sub →
  Forall (fun c => c = OtherCommand) commands →
  sub = [].
Proof.
  induction 1 as [| registers rest sub H IH |]; intros Hall.
  - done.
  - apply IH. by apply Forall_cons in Hall as [_ ?].
  - apply Forall_cons in Hall as [? _]. done.
Qed.

(** The loop over the instructions fills [finalize_register_map] at [async]
    instructions only. *)
Lemma trace_instructions_no_async {T} (calls : list (CallGraphNode * T)) insts i frm fin m :
  Forall (fun inst => ∀ operands, inst ≠ AsyncInstruction operands) insts →
  trace_instructions ext calls insts i frm fin = Return m →
  m = fin.
Proof.
  intros Hall. revert i frm.
  induction Hall as [|inst insts Hinst Hall IH]; intros i frm; simpl.
  - by intros [= <-].
  - destruct inst as [[id resource|]destinations|operands|]; try apply IH.
    + destruct (get_program ext id) as [called_program|]; [|done].
      destruct (py_item _ resource) as [|called_function]; simpl; [done|].
      destruct (fn_finalize called_function); [|apply IH].
      destruct (py_index destinations (-1)) as [|dest]; simpl; [done|].
      destruct (py_index calls i) as [|callee]; simpl; [done|].
      case_bool_decide; [done|]. apply IH.
    + by destruct (Hinst operands).
Qed.

Lemma trace_commands_empty_map commands order order' :
  trace_commands ext ∅ commands order = Return order' →
  Forall (fun c => c = OtherCommand) commands.
Proof.
  revert order. induction commands as [|[register|] commands IH]; intros order; simpl.
  - constructor.
  - by rewrite lookup_empty.
  - intros H. constructor; [done|]. by eapply IH.
Qed.

End TracerFacts.

(** X9: every id of the order [build_async_order] returns is one of the
    transition ids it was given. *)
Theorem build_async_order_ids
    (ext : External) (transition_ids : list TransitionID) (program : Program)
    (function_name : Identifier) (order : list TransitionID)
    (Hrun : build_async_order ext transition_ids program function_name = Return order) :
  Forall (fun t => t ∈ transition_ids) order.
Proof.
  unfold build_async_order in Hrun.
  destruct (call_graph ext program function_name) as [|graph]; cbn [rbind] in Hrun; [done|].
  destruct (py_index transition_ids (-1)) as [|outermost] eqn:Hlast;
    cbn [rbind] in Hrun; [done|].
  apply _trace_execution_depth_first in Hrun as (sub & -> & Hdf).
  apply Forall_app. split.
  - constructor; [by eapply py_index_elem_of | constructor].
  - by eapply depth_first_ids.
Qed.

Lemma build_async_order_ids_witness :
  Forall (fun t => t ∈ [10; 20; 30]) [30; 20; 10].
Proof.
  apply (build_async_order_ids (ex_ext ex_programs) [10; 20; 30] ex_prog_p "main"
           [30; 20; 10]).
  vm_compute. reflexivity.
Defined.

(** X10: the tracer only appends to the order it is given, and what it
    appends does not depend on that order. *)
Theorem _trace_execution_appends
    (ext : External) (transition_ids : list TransitionID) (program : Program)
    (function_name : Identifier) (node : CallGraphNode)
    (order order' : list TransitionID) :
  _trace_execution ext transition_ids program function_name node order = Return order'
  ↔ ∃ sub, order' = order ++ sub
           ∧ _trace_execution ext transition_ids program function_name node []
             = Return sub.
Proof.
  rewrite _trace_execution_depth_first. split.
  - intros (sub & -> & Hdf). exists sub. split; [done|].
    apply _trace_execution_depth_first. by exists sub.
  - intros (sub & -> & Hrun). exists sub. split; [done|].
    apply _trace_execution_depth_first in Hrun as (sub' & Heq & Hdf).
    simpl in Heq. by subst.
Qed.

(** X11: the futures reach the finalize body through [async] instructions
    only: tracing a function without [async] instruction whose finalize body
    contains an [await] never returns an order. *)
Theorem _trace_execution_await_without_async
    (ext : External) (transition_ids : list TransitionID) (program : Program)
    (function_name : Identifier) (node : CallGraphNode) (function : Function)
    (commands : list Command) (order : list TransitionID)
    (Hfn : functions program !! function_name = Some function)
    (Hinsts : Forall (fun inst => ∀ operands, inst ≠ AsyncInstruction operands)
                (fn_instructions function))
    (Hfinalize : fn_finalize function = Some commands)
    (Hawait : Exists (fun c => ∃ register, c = AwaitCommand register) commands) :
  ∃ e, _trace_execution ext transition_ids program function_name node order = Raise e.
Proof.
  destruct (_trace_execution ext transition_ids program function_name node order)
    as [e|order'] eqn:Hrun; [by exists e|].
  exfalso. destruct node as [i nm t calls]. simpl in Hrun.
  destruct (add_transition_ids transition_ids _) as [|callees]; simpl in Hrun; [done|].
  unfold py_item in Hrun. rewrite Hfn in Hrun. simpl in Hrun. rewrite Hfinalize in Hrun.
  destruct (trace_instructions ext callees _ 0 ∅ ∅) as [|fin] eqn:Hfin;
    simpl in Hrun; [done|].
  apply trace_instructions_no_async in Hfin; [|done]. subst fin.
  apply trace_commands_empty_map in Hrun.
  apply Exists_exists in Hawait as (c & Hc & register & ->).
  by apply (proj1 (Forall_forall _ _) Hrun) in Hc.
Qed.

Lemma _trace_execution_await_without_async_witness :
  ∃ e, _trace_execution (ex_ext ex_programs) [10]
         (mkProgram "q.aleo" [] {[ "f" := mkFunction "f" []
                                           (Some [AwaitCommand (LocatorRegister 0)]) ]})
         "f" (Node 0 "" None []) [10] = Raise e.
Proof.
  apply (_trace_execution_await_without_async (ex_ext ex_programs) [10]
           (mkProgram "q.aleo" [] {[ "f" := mkFunction "f" []
                                             (Some [AwaitCommand (LocatorRegister 0)]) ]})
           "f" (Node 0 "" None [])
           (mkFunction "f" [] (Some [AwaitCommand (LocatorRegister 0)]))
           [AwaitCommand (LocatorRegister 0)] [10]).
  - reflexivity.
  - constructor.
  - reflexivity.
  - constructor. by exists (LocatorRegister 0).
Defined.

(** X12: when the traced function has no finalizer, or a finalize body
    without [await], the order is the outermost transition alone. *)
Theorem build_async_order_without_await
    (ext : External) (transition_ids : list TransitionID) (program : Program)
    (function_name : Identifier) (function : Function) (order : list TransitionID)
    (Hrun : build_async_order ext transition_ids program function_name = Return order)
    (Hfn : functions program !! function_name = Some function)
    (Hfinalize : ∀ commands, fn_finalize function = Some commands →
                             Forall (fun c => c = OtherCommand) commands) :
  ∃ outermost, last transition_ids = Some outermost ∧ order = [outermost].
Proof.
  unfold build_async_order in Hrun.
  destruct (call_graph ext program function_name) as [|graph]; cbn [rbind] in Hrun; [done|].
  destruct (py_index transition_ids (-1)) as [|outermost] eqn:Hlast;
    cbn [rbind] in Hrun; [done|].
  apply py_index_minus_one in Hlast.
  apply _trace_execution_depth_first in Hrun as (sub & -> & Hdf).
  exists outermost. split; [done|].
  inversion Hdf as [| ? ? ? function' commands ? ? ? _ Hfn' Hfinalize' _ Hawaits]; subst.
  - done.
  - assert (function' = function) as -> by congruence.
    by rewrite (depth_first_awaits_none _ _ _ _ _ Hawaits (Hfinalize _ Hfinalize')).
Qed.

Lemma build_async_order_without_await_witness :
  ∃ outermost, last [10] = Some outermost ∧ [10] = [outermost].
Proof.
  apply (build_async_order_without_await (ex_ext ex_programs) [10] ex_prog_a "fa"
           (ex_fn_leaf "fa") [10]).
  - vm_compute. reflexivity.
  - reflexivity.
  - intros commands [= <-]. constructor.
Defined.

(** ** Qualified names *)

Lemma split_nonempty sep s : split sep s ≠ [].
Proof. destruct s as [|a s]; simpl; [done|]. destruct (Ascii.eqb a sep); [done|]. by destruct (split sep s). Qed.

Lemma split_no_sep sep s : has_char sep s = false → split sep s = [s].
Proof.
  induction s as [|a s IH]; simpl; [done|].
  destruct (Ascii.eqb a sep); simpl; [done|]. intros H. by rewrite IH.
Qed.

Lemma split_append sep p f :
  has_char sep p = false → split sep (p +:+ String sep f) = p :: split sep f.
Proof.
  induction p as [|a p IH]; simpl.
  - intros _. by rewrite Ascii.eqb_refl.
  - destruct (Ascii.eqb a sep); simpl; [done|]. intros H. by rewrite IH.
Qed.

(** The first piece has no separator, and the string is the first piece, or
    the first piece, the separator and the string the other pieces come
    from. *)
Lemma split_cons sep s h t :
  split sep s = h :: t →
  has_char sep h = false
  ∧ (t = [] ∧ s = h ∨ ∃ s', s = h +:+ String sep s' ∧ split sep s' = t).
Proof.
  revert h t. induction s as [|a s IH]; intros h t; simpl.
  - intros [= <- <-]. split; [done|]. by left.
  - destruct (Ascii.eqb a sep) eqn:Ha.
    + intros [= <- <-]. split; [done|]. right. exists s.
      apply Ascii.eqb_eq in Ha. by subst.
    + destruct (split sep s) as [|h' t'] eqn:Hs; [by destruct (split_nonempty sep s)|].
      intros [= <- <-]. destruct (IH h' t' eq_refl) as [Hh Hrest].
      split; [simpl; by rewrite Ha|].
      destruct Hrest as [[-> ->]|(s' & -> & Ht)]; [by left|].
      right. by exists s'.
Qed.

(** X13: a name splits into a program and a function exactly when it is the
    two joined by one slash, neither containing a slash: the name the tracer
    checks against [f"{program.id}/{function.name}"] is read back as it was
    written. *)
Theorem split_name_round_trip (name p f : string) :
  split_name name = Return (p, f)
  ↔ name = p +:+ "/" +:+ f ∧ has_char slash p = false ∧ has_char slash f = false.
Proof.
  unfold split_name. split.
  - destruct (split slash name) as [|h [|h2 [|h3 t]]] eqn:Hs; try done.
    intros [= <- <-].
    apply split_cons in Hs as [Hh [[? _]|(s' & -> & Hs')]]; [done|].
    apply split_cons in Hs' as [Hh2 [[_ ->]|(s'' & _ & Hs'')]];
      [done | by destruct (split_nonempty slash s'')].
  - intros (-> & Hp & Hf).
    change (p +:+ "/" +:+ f) with (p +:+ String slash f).
    by rewrite split_append, split_no_sep.
Qed.

(** ** Bootstrap of the builtin programs *)

Lemma init_builtin_mappings_shape ext has_program program names calls :
  ∃ saved : list bool,
    length saved = length names
    ∧ init_builtin_mappings ext has_program program names calls
      = calls
        ++ concat
             (zip_with
                (fun mapping (save : bool) =>
                   initialize_builtin_mapping
                     (py_str ext (VField (cached_get_mapping_id ext (program_id program) mapping)))
                     (py_str ext (VStr (program_id program)))
                     (py_str ext (VStr mapping))
                   :: (if save then [save_builtin_program program] else []))
                names saved).
Proof.
  revert calls. induction names as [|mapping names IH]; intros calls; simpl.
  - exists []. by rewrite app_nil_r.
  - destruct (has_program _ _).
    + destruct (IH (calls ++ [initialize_builtin_mapping
                 (py_str ext (VField (cached_get_mapping_id ext (program_id program) mapping)))
                 (py_str ext (VStr (program_id program)))
                 (py_str ext (VStr mapping))])) as (saved & Hlen & ->).
      exists (false :: saved). split; [simpl; lia|]. simpl. by rewrite <- app_assoc.
    + destruct (IH ((calls ++ [initialize_builtin_mapping
                 (py_str ext (VField (cached_get_mapping_id ext (program_id program) mapping)))
                 (py_str ext (VStr (program_id program)))
                 (py_str ext (VStr mapping))]) ++ [save_builtin_program program]))
        as (saved & Hlen & ->).
      exists (true :: saved). split; [simpl; lia|]. simpl. by rewrite <- !app_assoc.
Qed.

(** X14: [init_builtin_program] only adds calls, and they have one shape: for
    each mapping of the program, in declaration order, one
    [initialize_builtin_mapping] with the identifier of the mapping, the
    program and the name of the mapping as strings, followed by at most one
    save of this very program, and nothing else; a program without mappings
    sends no call, so it is never saved. *)
Theorem init_builtin_program_calls
    (ext : External) (has_program : list BuiltinDbCall → string → bool)
    (program : Program) (calls : list BuiltinDbCall) :
  ∃ saved : list bool,
    length saved = length (mappings program)
    ∧ init_builtin_program ext has_program program calls
      = calls
        ++ concat
             (zip_with
                (fun mapping (save : bool) =>
                   initialize_builtin_mapping
                     (py_str ext (VField (cached_get_mapping_id ext (program_id program) mapping)))
                     (py_str ext (VStr (program_id program)))
                     (py_str ext (VStr mapping))
                   :: (if save then [save_builtin_program program] else []))
                (map fst (mappings program)) saved).
Proof.
  destruct (init_builtin_mappings_shape ext has_program program
              (map fst (mappings program)) calls) as (saved & Hlen & Hrun).
  exists saved. rewrite length_map in Hlen. done.
Qed.

Lemma init_builtin_mappings_saved ext has_program program names calls :
  (∀ calls', save_builtin_program program ∈ calls' →
             has_program calls' (py_str ext (VStr (program_id program))) = true) →
  Exists (fun c => c = save_builtin_program program) calls →
  ∃ new, init_builtin_mappings ext has_program program names calls = calls ++ new
         ∧ Forall (fun c => is_initialize_builtin_mapping c = true) new.
Proof.
  intros Hdb. revert calls. induction names as [|mapping names IH]; intros calls Hin; simpl.
  - exists []. by rewrite app_nil_r.
  - rewrite Hdb.
    + destruct (IH (calls ++ [initialize_builtin_mapping
                 (py_str ext (VField (cached_get_mapping_id ext (program_id program) mapping)))
                 (py_str ext (VStr (program_id program)))
                 (py_str ext (VStr mapping))])) as (new & -> & Hnew).
      { apply Exists_app. by left. }
      eexists (_ :: new). split; [by rewrite <- app_assoc|]. by constructor.
    + apply Exists_exists in Hin as (c & Hc & ->). apply elem_of_app. by left.
Qed.

(** X15: on a database where a saved program is found again, the program is
    saved at most once, whatever the number of its mappings. *)
Theorem init_builtin_program_saves_once
    (ext : External) (has_program : list BuiltinDbCall → string → bool)
    (program : Program) (calls : list BuiltinDbCall)
    (Hdb : ∀ calls', save_builtin_program program ∈ calls' →
                     has_program calls' (py_str ext (VStr (program_id program))) = true) :
  ∃ new,
    init_builtin_program ext has_program program calls = calls ++ new
    ∧ (length (filter (fun c => is_initialize_builtin_mapping c = false) new) ≤ 1)%nat.
Proof.
  unfold init_builtin_program.
  generalize (map fst (mappings program)) as names. intros names. revert calls.
  induction names as [|mapping names IH]; intros calls; simpl.
  - exists []. rewrite app_nil_r. split; [done|]. simpl. lia.
  - destruct (has_program _ _).
    + destruct (IH (calls ++ [initialize_builtin_mapping
                 (py_str ext (VField (cached_get_mapping_id ext (program_id program) mapping)))
                 (py_str ext (VStr (program_id program)))
                 (py_str ext (VStr mapping))])) as (new & -> & Hnew).
      eexists (_ :: new). split; [by rewrite <- app_assoc|].
      rewrite filter_cons. simpl. done.
    + destruct (init_builtin_mappings_saved ext has_program program names
                  ((calls ++ [initialize_builtin_mapping
                 (py_str ext (VField (cached_get_mapping_id ext (program_id program) mapping)))
                 (py_str ext (VStr (program_id program)))
                 (py_str ext (VStr mapping))]) ++ [save_builtin_program program]) Hdb)
        as (new & -> & Hnew).
      { apply Exists_app. right. by constructor. }
      eexists (_ :: _ :: new). split; [by rewrite <- !app_assoc|].
      rewrite !filter_cons. simpl.
      replace (filter _ new) with (@nil BuiltinDbCall); [simpl; lia|].
      symmetry. clear -Hnew. induction Hnew as [|c new Hc Hnew IH]; [done|].
      rewrite filter_cons. rewrite Hc. simpl. done.
Qed.

Lemma ex_has_program_saved (program : Program) (calls : list BuiltinDbCall) :
  save_builtin_program program ∈ calls →
  ex_has_program calls (program_id program) = true.
Proof.
  intros Hin. unfold ex_has_program. apply existsb_exists.
  exists (save_builtin_program program). split; [by apply list_elem_of_In|].
  simpl. apply String.eqb_refl.
Qed.

Lemma init_builtin_program_saves_once_witness :
  init_builtin_program (ex_ext ex_programs) ex_has_program ex_prog_p []
  = [initialize_builtin_mapping "8field" "p.aleo" "balances";
     save_builtin_program ex_prog_p;
     initialize_builtin_mapping "6field" "p.aleo" "owners"]
  ∧ ∃ new,
      init_builtin_program (ex_ext ex_programs) ex_has_program ex_prog_p [] = [] ++ new
      ∧ (length (filter (fun c => is_initialize_builtin_mapping c = false) new) ≤ 1)%nat.
Proof.
  split; [vm_compute; reflexivity|].
  apply (init_builtin_program_saves_once (ex_ext ex_programs) ex_has_program
           ex_prog_p []).
  intros calls' Hin. apply (ex_has_program_saved ex_prog_p calls' Hin).
Defined.

(** ** The preview route, from the request on *)

Lemma py_index_nat {A} (l : list A) (i : nat) :
  py_index l (Z.of_nat i)
  = match l !! i with Some x => Return x | None => Raise IndexError end.
Proof.
  unfold py_index.
  rewrite (proj2 (Z.ltb_ge (Z.of_nat i) 0)) by lia. simpl.
  rewrite (proj2 (Z.ltb_ge (Z.of_nat i) 0)) by lia. simpl.
  rewrite Nat2Z.id.
  destruct (Z.leb_spec (Z.of_nat (length l)) (Z.of_nat i)) as [H|H].
  - by rewrite lookup_ge_None_2 by lia.
  - done.
Qed.

(** X16: the request is checked field by field, in this order: a body that is
    not an object raises; a missing, empty or zero [program_id] is reported
    first, then a missing or empty [transition_name], then missing [inputs],
    then [inputs] that are not an array, each with status 400 and with the
    store untouched. *)
Theorem preview_finalize_route_request_validation
    (ext : External) (rext : RouteExternal) (json : Json) (s : Store) :
  ((∀ fields, json ≠ JObject fields) →
   preview_finalize_route_request ext rext json s = (Raise AttributeError, s))
  ∧ (∀ fields program_id transition_name inputs,
       json = JObject fields →
       json_get json "program_id" = Return program_id →
       json_get json "transition_name" = Return transition_name →
       json_get json "inputs" = Return inputs →
       (truthy program_id = false →
        preview_finalize_route_request ext rext json s
        = (Return (JSONError "Missing program_id" 400), s))
       ∧ (truthy program_id = true → truthy transition_name = false →
          preview_finalize_route_request ext rext json s
          = (Return (JSONError "Missing transition_name" 400), s))
       ∧ (truthy program_id = true → truthy transition_name = true → inputs = JNull →
          preview_finalize_route_request ext rext json s
          = (Return (JSONError "Missing inputs (pass empty array for no input)" 400), s))
       ∧ (truthy program_id = true → truthy transition_name = true →
          inputs ≠ JNull → (∀ items, inputs ≠ JArray items) →
          preview_finalize_route_request ext rext json s
          = (Return (JSONError "Inputs must be an array" 400), s))).
Proof.
  split.
  - intros Hnot. unfold preview_finalize_route_request.
    destruct json; try done. by destruct (Hnot fields).
  - intros fields program_id transition_name inputs -> Hp Ht Hi.
    unfold preview_finalize_route_request.
    rewrite (mbind_lift _ _ _ _ Hp), (mbind_lift _ _ _ _ Ht), (mbind_lift _ _ _ _ Hi).
    repeat split.
    + by intros ->.
    + by intros -> ->.
    + by intros -> -> ->.
    + intros -> -> Hnull Harr. simpl.
      destruct inputs; try done. by destruct (Harr items).
Qed.

Lemma preview_finalize_route_request_validation_witness :
  preview_finalize_route_request (ex_ext ex_programs)
    (mkRouteExternal (fun _ => None) (fun _ => Raise ValueError) (fun _ => [])
       (fun _ => "") (fun _ _ => None) (fun _ _ => false)
       (fun _ _ _ => Raise ValueError) (fun _ => ""))
    (JObject [("program_id", JString ""); ("inputs", JArray [])]) ex_store
  = (Return (JSONError "Missing program_id" 400), ex_store).
Proof.
  apply (proj1 (proj2 (preview_finalize_route_request_validation (ex_ext ex_programs)
           (mkRouteExternal (fun _ => None) (fun _ => Raise ValueError) (fun _ => [])
              (fun _ => "") (fun _ _ => None) (fun _ _ => false)
              (fun _ _ _ => Raise ValueError) (fun _ => ""))
           (JObject [("program_id", JString ""); ("inputs", JArray [])]) ex_store)
           [("program_id", JString ""); ("inputs", JArray [])]
           (JString "") JNull (JArray [])
           ltac:(reflexivity) ltac:(reflexivity) ltac:(reflexivity) ltac:(reflexivity))).
  reflexivity.
Defined.

Lemma preview_values_short_from rext program done todo types values ty :
  Forall2 (loads_literal rext) (take (length todo) types) todo →
  types !! length todo = Some ty →
  preview_values rext program (done ++ todo) (length done) types values
  = match ty with
    | LiteralInput _ =>
        Return (inl (JSONError ("Invalid input for index "
                                +:+ pretty (length (done ++ todo))) 400))
    | StructInput struct =>
        if has_struct rext program struct
        then Return (inl (JSONError
                            ("Invalid input for index " +:+ pretty (length (done ++ todo))
                             +:+ ": " +:+ exn_str rext IndexError
                             +:+ " (experimental feature, if you believe this is an error please submit a feedback)")
                            400))
        else Raise (KeyError struct)
    | OtherInput => Return (inl (JSONError "Unknown input type" 500))
    end.
Proof.
  revert done types values.
  induction todo as [|input todo IH]; intros done types values Hloads Hnext.
  - destruct types as [|ty' types]; [done|]. injection Hnext as ->.
    simpl. rewrite app_nil_r, py_index_nat.
    rewrite lookup_ge_None_2 by lia.
    destruct ty as [primitive_type|struct|]; [done| |done].
    by destruct (has_struct rext program struct).
  - destruct types as [|ty' types]; [done|]. simpl in Hloads, Hnext.
    apply Forall2_cons in Hloads as [(prim & plaintext & -> & Hload) Hloads].
    simpl. rewrite py_index_nat, lookup_app_r, Nat.sub_diag by lia. simpl.
    rewrite Hload.
    replace (done ++ input :: todo) with ((done ++ [input]) ++ todo)
      by (by rewrite <- app_assoc).
    replace (S (length done)) with (length (done ++ [input]))
      by (rewrite length_app; simpl; lia).
    by apply IH.
Qed.

(** X17: when the request brings fewer inputs than the finalize block
    declares, the given ones being literals that load, the outcome is decided
    by the declared type of the first missing input, whose index is the
    number of inputs given.  A literal gives the client error
    [Invalid input for index i]; a struct of the program gives the client
    error that adds the text of the [IndexError]; a struct the program does
    not declare raises [KeyError]; any other type gives [Unknown input type]
    with status 500. *)
Theorem preview_values_short_inputs
    (rext : RouteExternal) (program : Program) (inputs : list Json)
    (types : list FinalizeInputType) (ty : FinalizeInputType)
    (Hloads : Forall2 (loads_literal rext) (take (length inputs) types) inputs)
    (Hnext : types !! length inputs = Some ty) :
  preview_values rext program inputs 0 types []
  = match ty with
    | LiteralInput _ =>
        Return (inl (JSONError ("Invalid input for index " +:+ pretty (length inputs)) 400))
    | StructInput struct =>
        if has_struct rext program struct
        then Return (inl (JSONError
                            ("Invalid input for index " +:+ pretty (length inputs)
                             +:+ ": " +:+ exn_str rext IndexError
                             +:+ " (experimental feature, if you believe this is an error please submit a feedback)")
                            400))
        else Raise (KeyError struct)
    | OtherInput => Return (inl (JSONError "Unknown input type" 500))
    end.
Proof.
  by apply (preview_values_short_from rext program [] inputs types [] ty).
Qed.

Lemma preview_values_short_inputs_witness :
  preview_values
    (mkRouteExternal (fun _ => None) (fun _ => Raise ValueError) (fun _ => [])
       (fun _ => "1u8") (fun _ s => Some (mkPlaintext s)) (fun _ _ => false)
       (fun _ _ _ => Raise ValueError) (fun _ => ""))
    ex_prog_p [JString "1u8"] 0 [LiteralInput "u8"; OtherInput] []
  = Return (inl (JSONError "Unknown input type" 500)).
Proof.
  apply (preview_values_short_inputs
           (mkRouteExternal (fun _ => None) (fun _ => Raise ValueError) (fun _ => [])
              (fun _ => "1u8") (fun _ s => Some (mkPlaintext s)) (fun _ _ => false)
              (fun _ _ _ => Raise ValueError) (fun _ => ""))
           ex_prog_p [JString "1u8"] [LiteralInput "u8"; OtherInput] OtherInput).
  - repeat constructor. by exists "u8", (mkPlaintext "1u8").
  - reflexivity.
Defined.

Lemma preview_values_take_from rext program inputs index types values :
  preview_values rext program (take (index + length types) inputs) index types values
  = preview_values rext program inputs index types values.
Proof.
  revert index values. induction types as [|ty types IH]; intros index values; [done|].
  simpl length.
  replace (index + S (length types))%nat with (S (index + length types)) by lia.
  assert (py_index (take (S (index + length types)) inputs) (Z.of_nat index)
          = py_index inputs (Z.of_nat index)) as Hidx.
  { rewrite !py_index_nat, lookup_take_lt by lia. done. }
  destruct ty as [primitive_type|struct|]; cbn [preview_values]; try rewrite Hidx;
    [| |done].
  - destruct (py_index inputs (Z.of_nat index)) as [|input]; [done|].
    destruct (primitive_loads rext primitive_type (json_str rext input)); [|done].
    apply (IH (S index)).
  - destruct (has_struct rext program struct); simpl; [|done].
    destruct (let! input := py_index inputs (Z.of_nat index) in
              struct_loads rext program struct input); [done|].
    apply (IH (S index)).
Qed.

(** X18: inputs beyond the number of finalize inputs are never read: the
    loop gives the same outcome on the first [length types] inputs alone. *)
Theorem preview_values_ignores_extra_inputs
    (rext : RouteExternal) (program : Program) (inputs : list Json)
    (types : list FinalizeInputType) :
  preview_values rext program (take (length types) inputs) 0 types []
  = preview_values rext program inputs 0 types [].
Proof. apply (preview_values_take_from rext program inputs 0). Qed.

(** ** Chain routes *)

(** X19: for a parsed, non-negative [last_block] and a known latest height,
    [index_update_route] answers with the summary alone when [last_block] is
    beyond the latest height, and otherwise asks the database for
    [min(10, latest_height - last_block)] recent blocks, a number between 0
    and 10. *)
Theorem index_update_route_block_count
    {Summary Rows : Type} (py_int : string → option Z) (summary : Summary)
    (recent_blocks : Z → Rows) (param : string) (last_block latest_height : Z)
    (Hparse : py_int param = Some last_block)
    (Hnonneg : 0 ≤ last_block) :
  index_update_route py_int summary (Some latest_height) recent_blocks (Some param)
  = (if latest_height <? last_block then IndexUpdateSummary summary
     else IndexUpdateResult summary
            (recent_blocks (Z.min 10 (latest_height - last_block))))
  ∧ (last_block ≤ latest_height → 0 ≤ Z.min 10 (latest_height - last_block) ≤ 10).
Proof.
  split; [|lia].
  unfold index_update_route. rewrite Hparse.
  rewrite (proj2 (Z.ltb_ge last_block 0)) by lia.
  destruct (Z.ltb_spec latest_height last_block) as [H|H].
  - by rewrite (proj2 (Z.ltb_lt (latest_height - last_block) 0)) by lia.
  - rewrite (proj2 (Z.ltb_ge (latest_height - last_block) 0)) by lia.
    destruct (Z.ltb_spec 10 (latest_height - last_block)) as [H1|H1];
      f_equal; f_equal; lia.
Qed.

Lemma index_update_route_block_count_witness :
  index_update_route (fun _ => Some 5) tt (Some 100) (fun n => n) (Some "5")
  = (if 100 <? 5 then IndexUpdateSummary tt
     else IndexUpdateResult tt (Z.min 10 (100 - 5)))
  ∧ (5 ≤ 100 → 0 ≤ Z.min 10 (100 - 5) ≤ 10).
Proof.
  apply (index_update_route_block_count (fun _ => Some 5) tt (fun n => n) "5" 5 100).
  - reflexivity.
  - lia.
Defined.

(** X20: with [total_validators > 0] validators at the latest height, every
    validator position [i] belongs to a page the route accepts: page
    [i // 50 + 1] is answered with the window [50 * (i // 50)] to
    [50 * (i // 50) + 50], which contains [i]. *)
Theorem validators_route_range_covers
    (py_int : string → option Z) (latest_height total_validators : Z)
    (count : Z → option Z) (param : string) (i : Z)
    (Hcount : count latest_height = Some total_validators)
    (Hi : 0 ≤ i < total_validators)
    (Hparse : py_int param = Some (i / 50 + 1)) :
  validators_route_range py_int (Some latest_height) count (Some param)
  = ValidatorsPage latest_height (50 * (i / 50)) (50 * (i / 50) + 50) (i / 50 + 1)
      (total_validators / 50 + 1)
  ∧ 50 * (i / 50) ≤ i < 50 * (i / 50) + 50.
Proof.
  assert (50 * (i / 50) ≤ i < 50 * (i / 50) + 50) as Hwin.
  { pose proof (Z.div_mod i 50). pose proof (Z.mod_pos_bound i 50). lia. }
  split; [|done].
  unfold validators_route_range. rewrite Hparse, Hcount.
  rewrite (proj2 (Z.eqb_neq total_validators 0)) by lia.
  assert (0 ≤ i / 50 ≤ total_validators / 50) as Hdiv.
  { split; [apply Z.div_pos; lia | apply Z.div_le_mono; lia]. }
  rewrite (proj2 (Z.ltb_ge (i / 50 + 1) 1)) by lia.
  rewrite (proj2 (Z.ltb_ge (total_validators / 50 + 1) (i / 50 + 1))) by lia.
  simpl. f_equal; lia.
Qed.

Lemma validators_route_range_covers_witness :
  validators_route_range (fun _ => Some 2) (Some 9) (fun _ => Some 120) (Some "2")
  = ValidatorsPage 9 (50 * (70 / 50)) (50 * (70 / 50) + 50) (70 / 50 + 1) (120 / 50 + 1)
  ∧ 50 * (70 / 50) ≤ 70 < 50 * (70 / 50) + 50.
Proof.
  apply (validators_route_range_covers (fun _ => Some 2) 9 120 (fun _ => Some 120)
           "2" 70).
  - reflexivity.
  - lia.
  - reflexivity.
Defined.

(** X21: whenever [validators_route] asks for a page, the page is between 1
    and [total_validators // 50 + 1], the window is [50 * (page - 1)] wide 50,
    and, the count being positive, the window starts at or before
    [total_validators]; it starts exactly there, and is empty, on the last
    page when the count is a multiple of 50. *)
Theorem validators_route_range_window
    (py_int : string → option Z) (height : option Z) (count : Z → option Z)
    (p : option string) (latest_height start stop page total_pages : Z)
    (Hrun : validators_route_range py_int height count p
            = ValidatorsPage latest_height start stop page total_pages) :
  ∃ total_validators,
    height = Some latest_height
    ∧ count latest_height = Some total_validators
    ∧ total_validators ≠ 0
    ∧ total_pages = total_validators / 50 + 1
    ∧ 1 ≤ page ≤ total_pages
    ∧ start = 50 * (page - 1) ∧ stop = start + 50
    ∧ (0 < total_validators → 0 ≤ start ≤ total_validators)
    ∧ (0 < total_validators → total_validators mod 50 = 0 → page = total_pages →
       start = total_validators).
Proof.
  unfold validators_route_range in Hrun.
  destruct (match p with None => Some 1 | Some p0 => py_int p0 end) as [page0|]; [|done].
  destruct height as [h|]; [|done].
  destruct (count h) as [total|] eqn:Hcount; [|done].
  destruct (Z.eqb_spec total 0) as [|Hne]; [done|].
  destruct (Z.ltb_spec page0 1) as [|H1]; [done|].
  destruct (Z.ltb_spec (total / 50 + 1) page0) as [|H2]; [done|].
  simpl in Hrun. injection Hrun as <- <- <- <- <-.
  exists total. split_and!; try done; try lia.
  - intros Hpos. pose proof (Z.mul_div_le total 50). lia.
  - intros Hpos Hmod ->. pose proof (Z.div_mod total 50). lia.
Qed.

Lemma validators_route_range_window_witness :
  ∃ total_validators,
    Some 9 = Some 9
    ∧ (fun _ : Z => Some 100) 9 = Some total_validators
    ∧ total_validators ≠ 0
    ∧ 3 = total_validators / 50 + 1
    ∧ 1 ≤ 3 ≤ 3
    ∧ 100 = 50 * (3 - 1) ∧ 150 = 100 + 50
    ∧ (0 < total_validators → 0 ≤ 100 ≤ total_validators)
    ∧ (0 < total_validators → total_validators mod 50 = 0 → 3 = 3 →
       100 = total_validators).
Proof.
  apply (validators_route_range_window (fun _ => Some 3) (Some 9) (fun _ => Some 100)
           (Some "3") 9 100 150 3 3).
  reflexivity.
Defined.

(** ** Pledge addresses *)

(** X22: the first [from_env] makes an address a pledge address exactly when
    [PLEDGE_ADDRESS] is set, not empty, and the address is one of its
    comma-separated pieces, stripped. *)
Theorem from_env_is_pledge_address
    (py_strip : string → string) (environ : gmap string string) (address : string) :
  is_pledge_address (from_env py_strip environ None).1 address = true
  ↔ ∃ pledge_str piece,
      environ !! "PLEDGE_ADDRESS" = Some pledge_str
      ∧ pledge_str ≠ ""
      ∧ piece ∈ split comma pledge_str
      ∧ address = py_strip piece.
Proof.
  unfold is_pledge_address, from_env. simpl.
  rewrite bool_decide_eq_true.
  destruct (environ !! "PLEDGE_ADDRESS") as [pledge_str|].
  - case_bool_decide as He.
    + split; [set_solver|]. intros (v & piece & [= <-] & Hne & _). done.
    + rewrite elem_of_list_to_set, list_elem_of_fmap. split.
      * intros (piece & -> & Hin). by exists pledge_str, piece.
      * intros (v & piece & [= <-] & _ & Hin & ->). by exists piece.
  - split; [set_solver|]. by intros (v & piece & H & _).
Qed.

(** ** Mapping routes *)

(** X23: once [mapping_list_route] has listed the mappings of a program, the
    program is in the cache, and the route answers the same for this program
    without the database: whatever the database holds or the loader does
    later, and with the cache unchanged. *)
Theorem mapping_list_route_cached
    (db_get_program db_get_program' : string → option string)
    (program_load program_load' : string → Result Program)
    (program_id : string) (cache cache' : gmap string Program) (names : list string)
    (Hrun : mapping_list_route db_get_program program_load program_id cache
            = (Return (MappingList names), cache')) :
  (∃ program, cache' !! program_id = Some program ∧ names = map fst (mappings program))
  ∧ mapping_list_route db_get_program' program_load' program_id cache'
    = (Return (MappingList names), cache').
Proof.
  unfold mapping_list_route in *.
  destruct (cache !! program_id) as [program|] eqn:Hc.
  - injection Hrun as <- <-. rewrite Hc. split; [by exists program | done].
  - destruct (db_get_program program_id) as [bytes|]; [|done].
    case_bool_decide; [done|].
    destruct (program_load bytes) as [|program]; [done|].
    injection Hrun as <- <-. rewrite lookup_insert_eq.
    split; [by exists program | done].
Qed.

Lemma mapping_list_route_cached_witness :
  (∃ program, (<["p.aleo" := ex_prog_p]> (∅ : gmap string Program)) !! "p.aleo"
              = Some program
              ∧ ["balances"; "owners"] = map fst (mappings program))
  ∧ mapping_list_route (fun _ => None) (fun _ => Raise ValueError) "p.aleo"
      (<["p.aleo" := ex_prog_p]> ∅)
    = (Return (MappingList ["balances"; "owners"]), <["p.aleo" := ex_prog_p]> ∅).
Proof.
  apply (mapping_list_route_cached (fun _ => Some "bytes") (fun _ => None)
           (fun _ => Return ex_prog_p) (fun _ => Raise ValueError) "p.aleo" ∅
           (<["p.aleo" := ex_prog_p]> ∅) ["balances"; "owners"]).
  reflexivity.
Defined.
